(** * AWS IoT fleet provisioning by claim: the handshake of [main.go]

    A shallow embedding of [main.go]: the constants, the two response
    structs, [createMQTTClient] and [main].  [main] runs on the foreground
    goroutine; the MQTT client (paho) runs the subscription callbacks on its
    own delivery goroutine.  The two meet in four channels of capacity one
    and in two [select] statements, so the program is modelled as a state
    machine driven by a schedule: each event of the schedule lets the
    foreground goroutine run its next statement, lets the delivery goroutine
    dispatch one inbound message, or lets time pass. *)

From Stdlib Require Import NArith String Ascii.
From Stdlib.Strings Require Import Byte.
From stdpp Require Import base strings list gmap.

Set Warnings "-register-all".
Local Open Scope string_scope.
Local Open Scope list_scope.
Local Open Scope N_scope.

(** ** Constants of [main.go] *)

Definition region : string := "us-east-1".
Definition templateName : string := "testing_template".
Definition serialNumber : string := "testing_serial".
Definition certificateFile : string := "device_cert.pem".
Definition privateKeyFile : string := "device_key.pem".
Definition rootCAFile : string := "root_ca.pem".
Definition AWSIoTEndpoint : string := "aj0bkidxn9p53-ats.iot.us-east-1.amazonaws.com".

Definition topicCreateCertificate : string := "$aws/certificates/create/json".
Definition topicCreateAccepted : string := "$aws/certificates/create/json/accepted".
Definition topicCreateRejected : string := "$aws/certificates/create/json/rejected".
Definition topicRegisterThing : string :=
  "$aws/provisioning-templates/testing_template/provision/json".
Definition topicRegisterAccepted : string :=
  "$aws/provisioning-templates/testing_template/provision/json/accepted".
Definition topicRegisterRejected : string :=
  "$aws/provisioning-templates/testing_template/provision/json/rejected".

(** The names and modes that [main] passes to [os.WriteFile]
    (the octal literals 0644 and 0600). *)
Definition permanentCertFile : string := "permanent_cert.pem".
Definition permanentKeyFile : string := "permanent_key.pem".
Definition perm_0644 : N := 6 * 64 + 4 * 8 + 4.
Definition perm_0600 : N := 6 * 64.

(** [time.Second] in nanoseconds, and the [10 * time.Second] of both
    [time.After] calls. *)
Definition time_Second : N := 1000000000.
Definition waitBudget : N := 10 * time_Second.

(** ** Data *)

(** [[]byte]; a Go [string] is a byte sequence too, modelled by [string]
    (one [ascii] per byte).  [[]byte(s)] is [list_byte_of_string s] and
    [string(b)] is [string_of_list_byte b]. *)
Abbreviation bytes := (list byte).

(** A value of type [interface{}] as [encoding/json] produces it.  A
    [float64] is carried by its IEEE-754 bit pattern. *)
Inductive any : Type :=
| AnyNil
| AnyBool (b : bool)
| AnyFloat64 (bits : N)
| AnyString (s : string)
| AnySlice (l : list any)
| AnyMap (l : list (string * any)).

Record RegisterThingResponse := mkRegisterThingResponse {
  DeviceConfiguration : gmap string any;
  ThingName : string
}.

Record CreateCertificateResponse := mkCreateCertificateResponse {
  CertificateID : string;
  CertificatePem : string;
  PrivateKey : string;
  CertificateOwnershipToken : string;
  ResourceArns : gmap string string
}.

(** The values [main] stores in the [map[string]interface{}] request
    payloads: a string, or the [map[string]string] of template parameters. *)
Inductive go_value : Type :=
| GoString (s : string)
| GoMapStringString (m : gmap string string).

(** A Go call that returns [(value, error)]; an [error] is carried by the
    text its [Error()] method gives, which is what [%v] prints. *)
Inductive result (A : Type) : Type :=
| Ok (a : A)
| Err (e : string).
Arguments Ok {A} a.
Arguments Err {A} e.

(** The library functions [main] calls on payloads: [json.Unmarshal] at the
    two response types, [json.Marshal] at [map[string]interface{}], and the
    [%+v] rendering of the device configuration.  They belong to the Go
    standard library, so the program is verified for every implementation
    of them. *)
Class Codec := {
  json_Unmarshal_CreateCertificateResponse : bytes -> result CreateCertificateResponse;
  json_Unmarshal_RegisterThingResponse : bytes -> result RegisterThingResponse;
  json_Marshal : gmap string go_value -> result bytes;
  fmt_plus_v : gmap string any -> string
}.

(** What the outside world answers to the calls of the foreground
    goroutine: [None] is a nil error. *)
Record World := mkWorld {
  LoadX509KeyPair_error : option string;
  ReadFile_error : option string;
  Connect_error : option string;
  Publish_error : string -> option string;
  WriteFile_error : string -> option string
}.

(** The calls the program makes on its collaborators, in program order. *)
Inductive event : Type :=
| Log (msg : string)
| LoadX509KeyPair (certFile keyFile : string)
| ReadFile (name : string)
| Connect (broker clientID : string)
| Subscribe (topic : string) (qos : N)
| Publish (topic : string) (qos : N) (retained : bool) (payload : bytes)
| WriteFile (name : string) (data : bytes) (perm : N)
| Disconnect (quiesce : N)
| Exit (code : N).

(** The case of a [select] statement that was taken: the response channel,
    the error channel, or [time.After]. *)
Inductive ExchangeOutcome (R : Type) : Type :=
| Success (r : R)
| Failure (reason : string)
| TimedOut.
Arguments Success {R} r.
Arguments Failure {R} reason.
Arguments TimedOut {R}.

(** The four closures passed to [mqttClient.Subscribe]. *)
Inductive handler : Type :=
| OnCreateAccepted
| OnCreateRejected
| OnRegisterAccepted
| OnRegisterRejected.

(** A channel send performed by a callback. *)
Inductive send : Type :=
| SendCertResponse (r : CreateCertificateResponse)
| SendCertError (e : string)
| SendRegisterResponse (r : RegisterThingResponse)
| SendRegisterError (e : string).

(** The next statement of [main].  [certResponse] stays in scope through the
    whole first case of the outer [select]. *)
Inductive pc : Type :=
| PStart
| PSubscribeCreateAccepted
| PSubscribeCreateRejected
| PPublishCreate
| PWaitCreate
| PSelectCreate
| PBlockedCreate (deadline : N)
| PCertResponse (certResponse : CreateCertificateResponse)
| PCertError (err : string)
| PCertTimeout
| PWriteKey (certResponse : CreateCertificateResponse)
| PSubscribeRegisterAccepted (certResponse : CreateCertificateResponse)
| PSubscribeRegisterRejected (certResponse : CreateCertificateResponse)
| PPublishRegister (certResponse : CreateCertificateResponse)
| PWaitRegister (certResponse : CreateCertificateResponse)
| PSelectRegister (certResponse : CreateCertificateResponse)
| PBlockedRegister (deadline : N) (certResponse : CreateCertificateResponse)
| PRegisterResponse (certResponse : CreateCertificateResponse)
    (registerResponse : RegisterThingResponse)
| PRegisterError (certResponse : CreateCertificateResponse) (err : string)
| PRegisterTimeout (certResponse : CreateCertificateResponse)
| PExited (code : N).

(** The whole program state.  [routes] is the client's table of
    subscription callbacks; [blocked] is the send on which the delivery
    goroutine is parked when the channel it writes to is full; the four
    [...Chan] fields are the one-slot buffers; [stepA] and [stepB] record
    which case each [select] took; [trace] is the calls made so far. *)
Record state := mkState {
  at_pc : pc;
  clock : N;
  routes : list (string * handler);
  blocked : option send;
  certResponseChan : option CreateCertificateResponse;
  certErrorChan : option string;
  registerResponseChan : option RegisterThingResponse;
  registerErrorChan : option string;
  stepA : option (ExchangeOutcome CreateCertificateResponse);
  stepB : option (ExchangeOutcome RegisterThingResponse);
  trace : list event
}.

Definition init : state :=
  mkState PStart 0 [] None None None None None None None [].

(** What the scheduler can let happen next. [EvMain coin]: the foreground
    goroutine runs one statement ([coin] is the pseudo-random choice a
    [select] makes when several of its cases are ready). [EvDeliver]: the
    delivery goroutine dispatches one inbound message. [EvTick]: time
    passes. *)
Inductive sched_event : Type :=
| EvMain (coin : bool)
| EvDeliver (topic : string) (payload : bytes)
| EvTick (d : N).

(** ** Field updates *)

Definition goto (p : pc) (s : state) : state :=
  mkState p (clock s) (routes s) (blocked s) (certResponseChan s)
    (certErrorChan s) (registerResponseChan s) (registerErrorChan s)
    (stepA s) (stepB s) (trace s).

Definition emit (es : list event) (s : state) : state :=
  mkState (at_pc s) (clock s) (routes s) (blocked s) (certResponseChan s)
    (certErrorChan s) (registerResponseChan s) (registerErrorChan s)
    (stepA s) (stepB s) (trace s ++ es).

Definition set_clock (t : N) (s : state) : state :=
  mkState (at_pc s) t (routes s) (blocked s) (certResponseChan s)
    (certErrorChan s) (registerResponseChan s) (registerErrorChan s)
    (stepA s) (stepB s) (trace s).

Definition set_routes (r : list (string * handler)) (s : state) : state :=
  mkState (at_pc s) (clock s) r (blocked s) (certResponseChan s)
    (certErrorChan s) (registerResponseChan s) (registerErrorChan s)
    (stepA s) (stepB s) (trace s).

Definition set_blocked (b : option send) (s : state) : state :=
  mkState (at_pc s) (clock s) (routes s) b (certResponseChan s)
    (certErrorChan s) (registerResponseChan s) (registerErrorChan s)
    (stepA s) (stepB s) (trace s).

Definition set_certResponseChan (c : option CreateCertificateResponse) (s : state) : state :=
  mkState (at_pc s) (clock s) (routes s) (blocked s) c
    (certErrorChan s) (registerResponseChan s) (registerErrorChan s)
    (stepA s) (stepB s) (trace s).

Definition set_certErrorChan (c : option string) (s : state) : state :=
  mkState (at_pc s) (clock s) (routes s) (blocked s) (certResponseChan s)
    c (registerResponseChan s) (registerErrorChan s)
    (stepA s) (stepB s) (trace s).

Definition set_registerResponseChan (c : option RegisterThingResponse) (s : state) : state :=
  mkState (at_pc s) (clock s) (routes s) (blocked s) (certResponseChan s)
    (certErrorChan s) c (registerErrorChan s)
    (stepA s) (stepB s) (trace s).

Definition set_registerErrorChan (c : option string) (s : state) : state :=
  mkState (at_pc s) (clock s) (routes s) (blocked s) (certResponseChan s)
    (certErrorChan s) (registerResponseChan s) c
    (stepA s) (stepB s) (trace s).

Definition resolveA (o : ExchangeOutcome CreateCertificateResponse) (s : state) : state :=
  mkState
    match o with
    | Success r => PCertResponse r
    | Failure e => PCertError e
    | TimedOut => PCertTimeout
    end
    (clock s) (routes s) (blocked s) (certResponseChan s)
    (certErrorChan s) (registerResponseChan s) (registerErrorChan s)
    (Some o) (stepB s) (trace s).

Definition resolveB (certResponse : CreateCertificateResponse)
    (o : ExchangeOutcome RegisterThingResponse) (s : state) : state :=
  mkState
    match o with
    | Success r => PRegisterResponse certResponse r
    | Failure e => PRegisterError certResponse e
    | TimedOut => PRegisterTimeout certResponse
    end
    (clock s) (routes s) (blocked s) (certResponseChan s)
    (certErrorChan s) (registerResponseChan s) (registerErrorChan s)
    (stepA s) (Some o) (trace s).

(** [log.Fatalf]: print, then [os.Exit(1)]; deferred calls do not run. *)
Definition fatal (msg : string) (s : state) : state :=
  goto (PExited 1) (emit [Log msg; Exit 1] s).

(** ** The client's routing table *)

(** [Subscribe] stores the callback under the topic, replacing the callback
    of a topic already present. *)
Fixpoint addRoute (topic : string) (h : handler) (r : list (string * handler))
  : list (string * handler) :=
  match r with
  | [] => [(topic, h)]
  | (t, h') :: r' =>
      if String.eqb t topic then (t, h) :: r' else (t, h') :: addRoute topic h r'
  end.

(** The callback an inbound message on [topic] is dispatched to.  None of
    the subscribed topics has a wildcard, so a route matches exactly its own
    topic. *)
Fixpoint matchRoute (topic : string) (r : list (string * handler)) : option handler :=
  match r with
  | [] => None
  | (t, h) :: r' => if String.eqb t topic then Some h else matchRoute topic r'
  end.

(** ** The program *)

Section Program.
Context {codec : Codec} (w : World).

(** [createMQTTClient]: the calls it makes, and the error it returns if any.
    The key pair is loaded first, then the root CA is read, then the client
    connects; the first failure returns. *)
Definition createMQTTClient (certFile keyFile rootCA : string)
  : list event * option string :=
  match LoadX509KeyPair_error w with
  | Some e =>
      ([LoadX509KeyPair certFile keyFile],
       Some ("failed to load certificates: " +:+ e))
  | None =>
      match ReadFile_error w with
      | Some e =>
          ([LoadX509KeyPair certFile keyFile; ReadFile rootCA],
           Some ("failed to load root CA: " +:+ e))
      | None =>
          let calls :=
            [LoadX509KeyPair certFile keyFile; ReadFile rootCA;
             Connect ("ssl://" +:+ AWSIoTEndpoint +:+ ":8883")
                     ("device-" +:+ serialNumber)] in
          match Connect_error w with
          | Some e => (calls, Some ("failed to connect: " +:+ e))
          | None => (calls, None)
          end
      end
  end.

(** The bodies of the four subscription callbacks: what each one sends, and
    on which channel. *)
Definition run_handler (h : handler) (payload : bytes) : send :=
  match h with
  | OnCreateAccepted =>
      match json_Unmarshal_CreateCertificateResponse payload with
      | Err e => SendCertError ("failed to unmarshal certificate response: " +:+ e)
      | Ok response => SendCertResponse response
      end
  | OnCreateRejected =>
      SendCertError ("certificate creation rejected: " +:+ string_of_list_byte payload)
  | OnRegisterAccepted =>
      match json_Unmarshal_RegisterThingResponse payload with
      | Err e => SendRegisterError ("failed to unmarshal register thing response: " +:+ e)
      | Ok response => SendRegisterResponse response
      end
  | OnRegisterRejected =>
      SendRegisterError ("thing registration rejected: " +:+ string_of_list_byte payload)
  end.

(** A send on a channel of capacity one, by the delivery goroutine.  If the
    foreground goroutine is parked in the [select] that reads the channel,
    the value is handed to it and the [select] is resolved; otherwise the
    value goes to the buffer, and if the buffer is full the sender parks. *)
Definition chan_send (m : send) (s : state) : state :=
  match m with
  | SendCertResponse r =>
      match at_pc s with
      | PBlockedCreate _ => resolveA (Success r) s
      | _ =>
          match certResponseChan s with
          | None => set_certResponseChan (Some r) s
          | Some _ => set_blocked (Some m) s
          end
      end
  | SendCertError e =>
      match at_pc s with
      | PBlockedCreate _ => resolveA (Failure e) s
      | _ =>
          match certErrorChan s with
          | None => set_certErrorChan (Some e) s
          | Some _ => set_blocked (Some m) s
          end
      end
  | SendRegisterResponse r =>
      match at_pc s with
      | PBlockedRegister _ c => resolveB c (Success r) s
      | _ =>
          match registerResponseChan s with
          | None => set_registerResponseChan (Some r) s
          | Some _ => set_blocked (Some m) s
          end
      end
  | SendRegisterError e =>
      match at_pc s with
      | PBlockedRegister _ c => resolveB c (Failure e) s
      | _ =>
          match registerErrorChan s with
          | None => set_registerErrorChan (Some e) s
          | Some _ => set_blocked (Some m) s
          end
      end
  end.

(** The delivery goroutine dispatches one inbound message: nothing happens
    once the process has exited, while an earlier callback is still parked
    in a send, or when no callback is subscribed to the topic. *)
Definition deliver (topic : string) (payload : bytes) (s : state) : state :=
  match at_pc s with
  | PExited _ => s
  | _ =>
      match blocked s with
      | Some _ => s
      | None =>
          match matchRoute topic (routes s) with
          | None => s
          | Some h => chan_send (run_handler h payload) s
          end
      end
  end.

(** Time advances by [d]; the timer of the pending [select], if its deadline
    is reached, resolves it. *)
Definition tick (d : N) (s : state) : state :=
  match at_pc s with
  | PExited _ => s
  | PBlockedCreate deadline =>
      let s' := set_clock (clock s + d) s in
      if N.leb deadline (clock s') then resolveA TimedOut s' else s'
  | PBlockedRegister deadline c =>
      let s' := set_clock (clock s + d) s in
      if N.leb deadline (clock s') then resolveB c TimedOut s' else s'
  | _ => set_clock (clock s + d) s
  end.

(** The foreground goroutine takes the value out of a full buffer; a sender
    parked on that channel then puts its own value in and goes on. *)
Definition recv_certResponse (s : state) : state :=
  match blocked s with
  | Some (SendCertResponse r') => set_blocked None (set_certResponseChan (Some r') s)
  | _ => set_certResponseChan None s
  end.

Definition recv_certError (s : state) : state :=
  match blocked s with
  | Some (SendCertError e') => set_blocked None (set_certErrorChan (Some e') s)
  | _ => set_certErrorChan None s
  end.

Definition recv_registerResponse (s : state) : state :=
  match blocked s with
  | Some (SendRegisterResponse r') =>
      set_blocked None (set_registerResponseChan (Some r') s)
  | _ => set_registerResponseChan None s
  end.

Definition recv_registerError (s : state) : state :=
  match blocked s with
  | Some (SendRegisterError e') => set_blocked None (set_registerErrorChan (Some e') s)
  | _ => set_registerErrorChan None s
  end.

(** The two request payloads, as [main] builds them. *)
Definition createCertPayload : gmap string go_value :=
  {[ "certificateSigningRequest" := GoString EmptyString ]}.

Definition templateParams : gmap string string :=
  {[ "SerialNumber" := serialNumber ]}.

Definition registerThingPayload (certResponse : CreateCertificateResponse)
  : gmap string go_value :=
  <[ "certificateOwnershipToken" := GoString (CertificateOwnershipToken certResponse) ]>
    {[ "parameters" := GoMapStringString templateParams ]}.

(** One statement of [main]. *)
Definition main_step (coin : bool) (s : state) : state :=
  match at_pc s with
  | PStart =>
      let s1 := emit [Log "Starting AWS IoT Device Provisioning test using trusted user flow";
                      Log "Creating MQTT client with temporary credentials..."] s in
      match createMQTTClient certificateFile privateKeyFile rootCAFile with
      | (calls, Some err) =>
          fatal ("Failed to create MQTT client: " +:+ err) (emit calls s1)
      | (calls, None) => goto PSubscribeCreateAccepted (emit calls s1)
      end
  | PSubscribeCreateAccepted =>
      goto PSubscribeCreateRejected
        (set_routes (addRoute topicCreateAccepted OnCreateAccepted (routes s))
           (emit [Log "Subscribing to certificate creation response topics...";
                  Subscribe topicCreateAccepted 1] s))
  | PSubscribeCreateRejected =>
      goto PPublishCreate
        (set_routes (addRoute topicCreateRejected OnCreateRejected (routes s))
           (emit [Subscribe topicCreateRejected 1] s))
  | PPublishCreate =>
      let s1 := emit [Log "Creating permanent certificate via MQTT..."] s in
      match json_Marshal createCertPayload with
      | Err e => fatal ("Failed to marshal create certificate payload: " +:+ e) s1
      | Ok payloadBytes =>
          goto PWaitCreate (emit [Publish topicCreateCertificate 1 false payloadBytes] s1)
      end
  | PWaitCreate =>
      match Publish_error w topicCreateCertificate with
      | Some e => fatal ("Failed to publish create certificate request: " +:+ e) s
      | None => goto PSelectCreate s
      end
  | PSelectCreate =>
      match certResponseChan s, certErrorChan s with
      | Some r, Some e =>
          if coin then resolveA (Failure e) (recv_certError s)
          else resolveA (Success r) (recv_certResponse s)
      | Some r, None => resolveA (Success r) (recv_certResponse s)
      | None, Some e => resolveA (Failure e) (recv_certError s)
      | None, None => goto (PBlockedCreate (clock s + waitBudget)) s
      end
  | PBlockedCreate _ => s
  | PCertResponse certResponse =>
      let s1 := emit [Log "Successfully created permanent certificate";
                      Log ("Certificate ID: " +:+ CertificateID certResponse);
                      WriteFile permanentCertFile
                        (list_byte_of_string (CertificatePem certResponse)) perm_0644] s in
      match WriteFile_error w permanentCertFile with
      | Some e => fatal ("Failed to write permanent certificate to file: " +:+ e) s1
      | None => goto (PWriteKey certResponse) s1
      end
  | PWriteKey certResponse =>
      let s1 := emit [WriteFile permanentKeyFile
                        (list_byte_of_string (PrivateKey certResponse)) perm_0600] s in
      match WriteFile_error w permanentKeyFile with
      | Some e => fatal ("Failed to write permanent private key to file: " +:+ e) s1
      | None => goto (PSubscribeRegisterAccepted certResponse) s1
      end
  | PSubscribeRegisterAccepted certResponse =>
      goto (PSubscribeRegisterRejected certResponse)
        (set_routes (addRoute topicRegisterAccepted OnRegisterAccepted (routes s))
           (emit [Log "Subscribing to thing registration response topics...";
                  Subscribe topicRegisterAccepted 1] s))
  | PSubscribeRegisterRejected certResponse =>
      goto (PPublishRegister certResponse)
        (set_routes (addRoute topicRegisterRejected OnRegisterRejected (routes s))
           (emit [Subscribe topicRegisterRejected 1] s))
  | PPublishRegister certResponse =>
      let s1 := emit [Log "Registering thing via MQTT..."] s in
      match json_Marshal (registerThingPayload certResponse) with
      | Err e => fatal ("Failed to marshal register thing payload: " +:+ e) s1
      | Ok payloadBytes =>
          goto (PWaitRegister certResponse)
            (emit [Publish topicRegisterThing 1 false payloadBytes] s1)
      end
  | PWaitRegister certResponse =>
      match Publish_error w topicRegisterThing with
      | Some e => fatal ("Failed to publish register thing request: " +:+ e) s
      | None => goto (PSelectRegister certResponse) s
      end
  | PSelectRegister c =>
      match registerResponseChan s, registerErrorChan s with
      | Some r, Some e =>
          if coin then resolveB c (Failure e) (recv_registerError s)
          else resolveB c (Success r) (recv_registerResponse s)
      | Some r, None => resolveB c (Success r) (recv_registerResponse s)
      | None, Some e => resolveB c (Failure e) (recv_registerError s)
      | None, None => goto (PBlockedRegister (clock s + waitBudget) c) s
      end
  | PBlockedRegister _ _ => s
  | PRegisterResponse _ registerResponse =>
      goto (PExited 0)
        (emit [Log ("Successfully registered thing: " +:+ ThingName registerResponse);
               Log ("Device configuration: " +:+
                    fmt_plus_v (DeviceConfiguration registerResponse));
               Log "Device provisioning test complete";
               Disconnect 250] s)
  | PRegisterError _ err => fatal ("Thing registration failed: " +:+ err) s
  | PRegisterTimeout _ => fatal "Timeout waiting for thing registration response" s
  | PCertError err => fatal ("Certificate creation failed: " +:+ err) s
  | PCertTimeout => fatal "Timeout waiting for certificate creation response" s
  | PExited _ => s
  end.

Definition step (s : state) (ev : sched_event) : state :=
  match ev with
  | EvMain coin => main_step coin s
  | EvDeliver topic payload => deliver topic payload s
  | EvTick d => tick d s
  end.

(** The state a schedule leads to, from [s] and from the start. *)
Definition exec (sched : list sched_event) (s : state) : state :=
  foldl step s sched.

Definition run (sched : list sched_event) : state := exec sched init.


(** ** What a run looks like

    The calls [main] has made when it stands at a given statement. *)

Definition marshalled (m : gmap string go_value) : bytes :=
  match json_Marshal m with
  | Ok b => b
  | Err _ => []
  end.

Definition tr_connected : list event :=
  [Log "Starting AWS IoT Device Provisioning test using trusted user flow";
   Log "Creating MQTT client with temporary credentials...";
   LoadX509KeyPair certificateFile privateKeyFile;
   ReadFile rootCAFile;
   Connect ("ssl://" +:+ AWSIoTEndpoint +:+ ":8883") ("device-" +:+ serialNumber)].

Definition tr_subscribedCreateAccepted : list event :=
  tr_connected ++
  [Log "Subscribing to certificate creation response topics...";
   Subscribe topicCreateAccepted 1].

Definition tr_subscribedCreate : list event :=
  tr_subscribedCreateAccepted ++ [Subscribe topicCreateRejected 1].

Definition tr_publishedCreate : list event :=
  tr_subscribedCreate ++
  [Log "Creating permanent certificate via MQTT...";
   Publish topicCreateCertificate 1 false (marshalled createCertPayload)].

Definition tr_certWritten (r : CreateCertificateResponse) : list event :=
  tr_publishedCreate ++
  [Log "Successfully created permanent certificate";
   Log ("Certificate ID: " +:+ CertificateID r);
   WriteFile permanentCertFile (list_byte_of_string (CertificatePem r)) perm_0644].

Definition tr_keyWritten (r : CreateCertificateResponse) : list event :=
  tr_certWritten r ++
  [WriteFile permanentKeyFile (list_byte_of_string (PrivateKey r)) perm_0600].

Definition tr_subscribedRegisterAccepted (r : CreateCertificateResponse) : list event :=
  tr_keyWritten r ++
  [Log "Subscribing to thing registration response topics...";
   Subscribe topicRegisterAccepted 1].

Definition tr_subscribedRegister (r : CreateCertificateResponse) : list event :=
  tr_subscribedRegisterAccepted r ++ [Subscribe topicRegisterRejected 1].

Definition tr_publishedRegister (r : CreateCertificateResponse) : list event :=
  tr_subscribedRegister r ++
  [Log "Registering thing via MQTT...";
   Publish topicRegisterThing 1 false (marshalled (registerThingPayload r))].

Definition expected_trace (p : pc) : list event :=
  match p with
  | PStart => []
  | PSubscribeCreateAccepted => tr_connected
  | PSubscribeCreateRejected => tr_subscribedCreateAccepted
  | PPublishCreate => tr_subscribedCreate
  | PWaitCreate | PSelectCreate | PBlockedCreate _
  | PCertResponse _ | PCertError _ | PCertTimeout => tr_publishedCreate
  | PWriteKey r => tr_certWritten r
  | PSubscribeRegisterAccepted r => tr_keyWritten r
  | PSubscribeRegisterRejected r => tr_subscribedRegisterAccepted r
  | PPublishRegister r => tr_subscribedRegister r
  | PWaitRegister r | PSelectRegister r | PBlockedRegister _ r
  | PRegisterResponse r _ | PRegisterError r _ | PRegisterTimeout r =>
      tr_publishedRegister r
  | PExited _ => []
  end.

Definition routes_createAccepted : list (string * handler) :=
  [(topicCreateAccepted, OnCreateAccepted)].
Definition routes_create : list (string * handler) :=
  routes_createAccepted ++ [(topicCreateRejected, OnCreateRejected)].
Definition routes_registerAccepted : list (string * handler) :=
  routes_create ++ [(topicRegisterAccepted, OnRegisterAccepted)].
Definition routes_register : list (string * handler) :=
  routes_registerAccepted ++ [(topicRegisterRejected, OnRegisterRejected)].

Definition expected_routes (p : pc) : list (string * handler) :=
  match p with
  | PStart | PSubscribeCreateAccepted => []
  | PSubscribeCreateRejected => routes_createAccepted
  | PPublishCreate | PWaitCreate | PSelectCreate | PBlockedCreate _
  | PCertResponse _ | PCertError _ | PCertTimeout
  | PWriteKey _ | PSubscribeRegisterAccepted _ => routes_create
  | PSubscribeRegisterRejected _ => routes_registerAccepted
  | PPublishRegister _ | PWaitRegister _ | PSelectRegister _ | PBlockedRegister _ _
  | PRegisterResponse _ _ | PRegisterError _ _ | PRegisterTimeout _ => routes_register
  | PExited _ => []
  end.

Definition expected_stepA (p : pc)
  : option (ExchangeOutcome CreateCertificateResponse) :=
  match p with
  | PStart | PSubscribeCreateAccepted | PSubscribeCreateRejected | PPublishCreate
  | PWaitCreate | PSelectCreate | PBlockedCreate _ => None
  | PCertError e => Some (Failure e)
  | PCertTimeout => Some TimedOut
  | PCertResponse r | PWriteKey r | PSubscribeRegisterAccepted r
  | PSubscribeRegisterRejected r | PPublishRegister r | PWaitRegister r
  | PSelectRegister r | PBlockedRegister _ r | PRegisterResponse r _
  | PRegisterError r _ | PRegisterTimeout r => Some (Success r)
  | PExited _ => None
  end.

Definition expected_stepB (p : pc) : option (ExchangeOutcome RegisterThingResponse) :=
  match p with
  | PRegisterResponse _ r => Some (Success r)
  | PRegisterError _ e => Some (Failure e)
  | PRegisterTimeout _ => Some TimedOut
  | _ => None
  end.

(** What the world has answered by the time [main] stands at a statement. *)
Definition connected_ok : Prop :=
  LoadX509KeyPair_error w = None /\ ReadFile_error w = None /\ Connect_error w = None.
Definition marshalledCreate_ok : Prop :=
  connected_ok /\ json_Marshal createCertPayload = Ok (marshalled createCertPayload).
Definition publishedCreate_ok : Prop :=
  marshalledCreate_ok /\ Publish_error w topicCreateCertificate = None.
Definition certWritten_ok : Prop :=
  publishedCreate_ok /\ WriteFile_error w permanentCertFile = None.
Definition keyWritten_ok : Prop :=
  certWritten_ok /\ WriteFile_error w permanentKeyFile = None.
Definition marshalledRegister_ok (r : CreateCertificateResponse) : Prop :=
  keyWritten_ok /\
  json_Marshal (registerThingPayload r) = Ok (marshalled (registerThingPayload r)).
Definition publishedRegister_ok (r : CreateCertificateResponse) : Prop :=
  marshalledRegister_ok r /\ Publish_error w topicRegisterThing = None.

Definition world_ok (p : pc) : Prop :=
  match p with
  | PStart | PExited _ => True
  | PSubscribeCreateAccepted | PSubscribeCreateRejected | PPublishCreate => connected_ok
  | PWaitCreate => marshalledCreate_ok
  | PSelectCreate | PBlockedCreate _ | PCertResponse _ | PCertError _ | PCertTimeout =>
      publishedCreate_ok
  | PWriteKey _ => certWritten_ok
  | PSubscribeRegisterAccepted _ | PSubscribeRegisterRejected _ | PPublishRegister _ =>
      keyWritten_ok
  | PWaitRegister r => marshalledRegister_ok r
  | PSelectRegister r | PBlockedRegister _ r | PRegisterResponse r _
  | PRegisterError r _ | PRegisterTimeout r => publishedRegister_ok r
  end.

(** The channel a parked send waits for is full. *)
Definition chan_full (m : send) (s : state) : Prop :=
  match m with
  | SendCertResponse _ => certResponseChan s <> None
  | SendCertError _ => certErrorChan s <> None
  | SendRegisterResponse _ => registerResponseChan s <> None
  | SendRegisterError _ => registerErrorChan s <> None
  end.

(** Before the registration callbacks are subscribed. *)
Definition before_register (p : pc) : bool :=
  match p with
  | PStart | PSubscribeCreateAccepted | PSubscribeCreateRejected | PPublishCreate
  | PWaitCreate | PSelectCreate | PBlockedCreate _ | PCertResponse _ | PCertError _
  | PCertTimeout | PWriteKey _ | PSubscribeRegisterAccepted _ => true
  | _ => false
  end.

Definition chans_ok (s : state) : Prop :=
  (forall m, blocked s = Some m -> chan_full m s) /\
  (before_register (at_pc s) = true ->
   registerResponseChan s = None /\ registerErrorChan s = None) /\
  match at_pc s with
  | PBlockedCreate deadline =>
      certResponseChan s = None /\ certErrorChan s = None /\ clock s < deadline
  | PBlockedRegister deadline _ =>
      registerResponseChan s = None /\ registerErrorChan s = None /\
      clock s < deadline
  | _ => True
  end.

Definition exited (s : state) : Prop :=
  match at_pc s with
  | PExited _ => True
  | _ => False
  end.

(** A state in which [main] is still running. *)
Definition live_shape (s : state) : Prop :=
  ~ exited s /\
  trace s = expected_trace (at_pc s) /\
  routes s = expected_routes (at_pc s) /\
  stepA s = expected_stepA (at_pc s) /\
  stepB s = expected_stepB (at_pc s) /\
  world_ok (at_pc s) /\
  chans_ok s.

(** Every state of a run is such a state, or the exit a statement of [main]
    made from one. *)
Definition Inv (s : state) : Prop :=
  live_shape s \/
  exists s0 coin, live_shape s0 /\ s = main_step coin s0 /\ exited s.

(** Where the values held in the state come from: each was sent by the
    callback of a message that the schedule delivered on the callback's
    topic. *)
Definition handler_topic (h : handler) : string :=
  match h with
  | OnCreateAccepted => topicCreateAccepted
  | OnCreateRejected => topicCreateRejected
  | OnRegisterAccepted => topicRegisterAccepted
  | OnRegisterRejected => topicRegisterRejected
  end.

Definition sent_in (sched : list sched_event) (m : send) : Prop :=
  exists h p, EvDeliver (handler_topic h) p ∈ sched /\ run_handler h p = m.

Definition held (s : state) (m : send) : Prop :=
  blocked s = Some m \/
  match m with
  | SendCertResponse r =>
      certResponseChan s = Some r \/ stepA s = Some (Success r)
  | SendCertError e =>
      certErrorChan s = Some e \/ stepA s = Some (Failure e)
  | SendRegisterResponse r =>
      registerResponseChan s = Some r \/ stepB s = Some (Success r)
  | SendRegisterError e =>
      registerErrorChan s = Some e \/ stepB s = Some (Failure e)
  end.

Definition routes_ok (s : state) : Prop :=
  forall t h, (t, h) ∈ routes s -> handler_topic h = t.

Definition provenance (sched : list sched_event) (s : state) : Prop :=
  routes_ok s /\ forall m, held s m -> sent_in sched m.

End Program.

(** ** A sample environment

    [encoding/json] on the documents of the end-to-end scenario, used to run
    the program on concrete schedules.  [sample_Unmarshal_...] know the
    documents listed here and answer every other payload like the truncated
    document [{]; [sample_Marshal] writes the two request shapes of [main]
    for strings that need no escaping; the [%+v] rendering is that of the
    one device configuration used. *)

Definition dq : string := String (ascii_of_nat 34) EmptyString.
Definition jstr (s : string) : string := dq +:+ s +:+ dq.

Definition sample_issuance_text : string :=
  "{" +:+ jstr "certificateId" +:+ ":" +:+ jstr "abc" +:+ ","
      +:+ jstr "certificatePem" +:+ ":" +:+ jstr "CERTDATA" +:+ ","
      +:+ jstr "privateKey" +:+ ":" +:+ jstr "KEYDATA" +:+ ","
      +:+ jstr "certificateOwnershipToken" +:+ ":" +:+ jstr "tok123" +:+ ","
      +:+ jstr "resourceArns" +:+ ":{}}".

(** The same document with its members in another order. *)
Definition sample_issuance_reordered_text : string :=
  "{" +:+ jstr "resourceArns" +:+ ":{},"
      +:+ jstr "certificateOwnershipToken" +:+ ":" +:+ jstr "tok123" +:+ ","
      +:+ jstr "privateKey" +:+ ":" +:+ jstr "KEYDATA" +:+ ","
      +:+ jstr "certificatePem" +:+ ":" +:+ jstr "CERTDATA" +:+ ","
      +:+ jstr "certificateId" +:+ ":" +:+ jstr "abc" +:+ "}".

Definition sample_registration_text : string :=
  "{" +:+ jstr "thingName" +:+ ":" +:+ jstr "thing-1" +:+ ","
      +:+ jstr "deviceConfiguration" +:+ ":{" +:+ jstr "x" +:+ ":1}}".

Definition sample_issuance : bytes := list_byte_of_string sample_issuance_text.
Definition sample_issuance_reordered : bytes :=
  list_byte_of_string sample_issuance_reordered_text.
Definition sample_registration : bytes := list_byte_of_string sample_registration_text.
Definition sample_truncated : bytes := list_byte_of_string "{".
Definition sample_rejection : bytes := list_byte_of_string "quota exceeded".

Definition sample_certResponse : CreateCertificateResponse :=
  mkCreateCertificateResponse "abc" "CERTDATA" "KEYDATA" "tok123" ∅.

(** [float64(1)] is [0x3FF0000000000000]. *)
Definition sample_registerResponse : RegisterThingResponse :=
  mkRegisterThingResponse {[ "x" := AnyFloat64 4607182418800017408 ]} "thing-1".

Definition sample_Unmarshal_cert (p : bytes) : result CreateCertificateResponse :=
  let t := string_of_list_byte p in
  if String.eqb t sample_issuance_text then Ok sample_certResponse
  else if String.eqb t sample_issuance_reordered_text then Ok sample_certResponse
  else Err "unexpected end of JSON input".

Definition sample_Unmarshal_reg (p : bytes) : result RegisterThingResponse :=
  if String.eqb (string_of_list_byte p) sample_registration_text
  then Ok sample_registerResponse
  else Err "unexpected end of JSON input".

Definition sample_Marshal (m : gmap string go_value) : result bytes :=
  match m !! "certificateSigningRequest",
        m !! "certificateOwnershipToken", m !! "parameters" with
  | Some (GoString csr), None, None =>
      Ok (list_byte_of_string
            ("{" +:+ jstr "certificateSigningRequest" +:+ ":" +:+ jstr csr +:+ "}"))
  | None, Some (GoString tok), Some (GoMapStringString ps) =>
      match ps !! "SerialNumber" with
      | Some sn =>
          Ok (list_byte_of_string
                ("{" +:+ jstr "certificateOwnershipToken" +:+ ":" +:+ jstr tok +:+ ","
                     +:+ jstr "parameters" +:+ ":{"
                     +:+ jstr "SerialNumber" +:+ ":" +:+ jstr sn +:+ "}}"))
      | None => Err "json: unsupported value"
      end
  | _, _, _ => Err "json: unsupported value"
  end.

Definition sample_codec : Codec :=
  Build_Codec sample_Unmarshal_cert sample_Unmarshal_reg sample_Marshal
    (fun _ => "map[x:1]").

(** Every call of the foreground goroutine succeeds. *)
Definition calm_world : World :=
  mkWorld None None None (fun _ => None) (fun _ => None).

(** The certificate file cannot be written. *)
Definition readonly_world : World :=
  mkWorld None None None (fun _ => None)
    (fun name => if String.eqb name permanentCertFile
                 then Some "open permanent_cert.pem: permission denied" else None).

Definition mains (n : nat) : list sched_event := replicate n (EvMain false).

(** The end-to-end scenario: the request is published, the issuance is
    accepted, both files are written, the registration is published and
    accepted. *)
Definition sample_schedule : list sched_event :=
  mains 6 ++ [EvDeliver topicCreateAccepted sample_issuance] ++
  mains 6 ++ [EvTick time_Second; EvDeliver topicRegisterAccepted sample_registration] ++
  mains 1.


(** ** Reading a trace *)

Definition event_topic (e : event) : option string :=
  match e with
  | Subscribe t _ => Some t
  | Publish t _ _ _ => Some t
  | _ => None
  end.

Definition registration_topic (t : string) : bool :=
  String.eqb t topicRegisterThing || String.eqb t topicRegisterAccepted
  || String.eqb t topicRegisterRejected.

(** A publish or subscribe on one of the three registration topics. *)
Definition registration_op (e : event) : bool :=
  match event_topic e with
  | Some t => registration_topic t
  | None => false
  end.

Definition is_write (e : event) : bool :=
  match e with
  | WriteFile _ _ _ => true
  | _ => false
  end.

(** The [os.WriteFile] calls of a trace, in order. *)
Definition writes (tr : list event) : list event := List.filter is_write tr.

(** The process ended in [log.Fatal] with this message. *)
Definition aborted_with (msg : string) (s : state) : Prop :=
  at_pc s = PExited 1 /\ exists tr, trace s = tr ++ [Log msg; Exit 1].

(** The files after the [os.WriteFile] calls of a trace took effect: each
    call replaces the content of the file it names. *)
Fixpoint fs_after (tr : list event) (fs : gmap string bytes) : gmap string bytes :=
  match tr with
  | [] => fs
  | WriteFile name data _ :: tr' => fs_after tr' (<[name := data]> fs)
  | _ :: tr' => fs_after tr' fs
  end.



(** [sub] occurs in [s] as a block of consecutive bytes. *)
Definition substring_of (sub s : string) : Prop :=
  exists pre post, s = pre +:+ sub +:+ post.

(** The trace ends with the two calls of [log.Fatal]. *)
Definition ends_fatal (msg : string) (tr : list event) : Prop :=
  match rev tr with
  | Exit 1 :: Log m :: _ => m = msg
  | _ => False
  end.

(** The two [os.WriteFile] calls of [main] for an issuance response. *)
Definition credential_writes (r : CreateCertificateResponse) : list event :=
  [WriteFile permanentCertFile (list_byte_of_string (CertificatePem r)) perm_0644;
   WriteFile permanentKeyFile (list_byte_of_string (PrivateKey r)) perm_0600].

Definition is_subscribe (t : string) (e : event) : bool :=
  match e with
  | Subscribe t' q => String.eqb t' t && N.eqb q 1
  | _ => false
  end.

(** Every publish of a request in [tr] comes after the subscriptions to its
    two response topics, [before] being the calls made before [tr]. *)
Fixpoint ordered_from (before tr : list event) : bool :=
  match tr with
  | [] => true
  | e :: tr' =>
      match e with
      | Publish t _ _ _ =>
          if String.eqb t topicCreateCertificate then
            existsb (is_subscribe topicCreateAccepted) before &&
            existsb (is_subscribe topicCreateRejected) before
          else if String.eqb t topicRegisterThing then
            existsb (is_subscribe topicRegisterAccepted) before &&
            existsb (is_subscribe topicRegisterRejected) before
          else false
      | _ => true
      end && ordered_from (before ++ [e]) tr'
  end.

(** A publish goes to one of the two request topics, a subscription to one
    of the four response topics. *)
Definition topic_ok (e : event) : bool :=
  match e with
  | Publish t _ _ _ => String.eqb t topicCreateCertificate || String.eqb t topicRegisterThing
  | Subscribe t _ =>
      String.eqb t topicCreateAccepted || String.eqb t topicCreateRejected
      || String.eqb t topicRegisterAccepted || String.eqb t topicRegisterRejected
  | _ => true
  end.

(** Every call of [tr] that [trigger] selects comes after a call that [need]
    selects, [before] being the calls made before [tr]. *)
Fixpoint preceded_from (trigger need : event -> bool) (before tr : list event) : bool :=
  match tr with
  | [] => true
  | e :: tr' =>
      (if trigger e then existsb need before else true)
      && preceded_from trigger need (before ++ [e]) tr'
  end.

Definition is_network (e : event) : bool :=
  match e with
  | Subscribe _ _ | Publish _ _ _ _ => true
  | _ => false
  end.

Definition is_connect (e : event) : bool :=
  match e with
  | Connect broker clientID =>
      String.eqb broker ("ssl://" +:+ AWSIoTEndpoint +:+ ":8883")
      && String.eqb clientID ("device-" +:+ serialNumber)
  | _ => false
  end.

Definition is_load_claim (e : event) : bool :=
  match e with
  | LoadX509KeyPair c k => String.eqb c certificateFile && String.eqb k privateKeyFile
  | _ => false
  end.

Definition is_read_rootCA (e : event) : bool :=
  match e with
  | ReadFile name => String.eqb name rootCAFile
  | _ => false
  end.

Definition is_publish_create (e : event) : bool :=
  match e with
  | Publish t _ _ _ => String.eqb t topicCreateCertificate
  | _ => false
  end.

(** The publish and subscribe calls of a trace: [true] marks a publish. *)
Definition transport_call (e : event) : option (bool * string) :=
  match e with
  | Subscribe t _ => Some (false, t)
  | Publish t _ _ _ => Some (true, t)
  | _ => None
  end.

Definition transport_calls (tr : list event) : list (bool * string) :=
  omap transport_call tr.

(** A send on one of the two channels of Step A. *)
Definition cert_send (m : send) : bool :=
  match m with
  | SendCertResponse _ | SendCertError _ => true
  | _ => false
  end.


(** The calls of a run in which both exchanges succeeded. *)
Definition tr_done {codec : Codec} (r : CreateCertificateResponse)
    (r' : RegisterThingResponse) : list event :=
  tr_publishedRegister r ++
  [Log ("Successfully registered thing: " +:+ ThingName r');
   Log ("Device configuration: " +:+ fmt_plus_v (DeviceConfiguration r'));
   Log "Device provisioning test complete";
   Disconnect 250].

(** The schedule of an answered handshake: [main] runs up to the first
    [select], the issuance is answered after [d1], [main] runs up to the
    second [select], the registration is answered after [d2], and [main]
    finishes. *)
Definition answered_schedule (d1 : N) (pA : bytes) (d2 : N) (pB : bytes) :
    list sched_event :=
  mains 6 ++ [EvTick d1; EvDeliver topicCreateAccepted pA] ++
  mains 7 ++ [EvTick d2; EvDeliver topicRegisterAccepted pB] ++
  mains 1.

(** The broker cannot be reached. *)
Definition offline_world : World :=
  mkWorld None None (Some "network Error : dial tcp: i/o timeout")
    (fun _ => None) (fun _ => None).

(** The certificate request is never acknowledged. *)
Definition unacked_world : World :=
  mkWorld None None None
    (fun t => if String.eqb t topicCreateCertificate
              then Some "publish was broken by timeout" else None)
    (fun _ => None).

(** The issuance is accepted, the registration is rejected. *)
Definition rejected_registration_schedule : list sched_event :=
  mains 6 ++ [EvDeliver topicCreateAccepted sample_issuance] ++
  mains 7 ++ [EvDeliver topicRegisterRejected sample_rejection].

(** The end-to-end scenario, up to the return of [main]. *)
Definition complete_schedule : list sched_event :=
  answered_schedule time_Second sample_issuance time_Second sample_registration.


(** * Proofs *)

Ltac split_all := repeat match goal with |- _ /\ _ => split end.

Ltac case_matches :=
  repeat match goal with
  | |- context [match ?x with _ => _ end] =>
      lazymatch x with
      | context [match _ with _ => _ end] => fail
      | _ => destruct x eqn:?; simpl in *
      end
  end.

Ltac use_marshal :=
  repeat match goal with
  | H : json_Marshal ?m = _ |- context [json_Marshal ?m] => rewrite H
  end.

Ltac live_tac :=
  unfold live_shape, chans_ok, world_ok, publishedRegister_ok, marshalledRegister_ok,
    keyWritten_ok, certWritten_ok, publishedCreate_ok, marshalledCreate_ok,
    connected_ok, marshalled, chan_full, exited in *;
  simpl in *; use_marshal;
  repeat match goal with
  | H : forall m, Some _ = Some m -> _ |- _ => specialize (H _ eq_refl); simpl in H
  | H : true = true -> _ |- _ => specialize (H eq_refl)
  | H : _ /\ _ |- _ => destruct H
  end;
  subst; split_all; intros; simplify_eq/=;
  unfold tr_publishedRegister, tr_publishedCreate, marshalled;
  use_marshal; repeat rewrite <- app_assoc; simpl;
  try done; try congruence; try tauto;
  try (unfold waitBudget, time_Second in *; lia).

Lemma matchRoute_In (t : string) (r : list (string * handler)) (h : handler) :
  matchRoute t r = Some h -> In (t, h) r.
Proof.
  induction r as [|[t' h'] r IH]; simpl; [discriminate|].
  destruct (String.eqb t' t) eqn:E.
  - apply String.eqb_eq in E. intros [= ->]. left. congruence.
  - intros Hm. right. auto.
Qed.

Ltac route_cases Hm :=
  apply matchRoute_In in Hm;
  unfold routes_register, routes_registerAccepted, routes_create,
    routes_createAccepted in Hm;
  simpl in Hm;
  repeat match type of Hm with
  | _ \/ _ => destruct Hm as [Hm|Hm]
  end;
  try contradiction; try (injection Hm as <- <-).

Ltac open_live H s :=
  let q := fresh "q" in
  destruct H as (Hne & Htr & Hro & HA & HB & Hw & Hch);
  destruct s as [q clk ro bl c1 c2 c3 c4 a b tr];
  simpl in *; destruct q; simpl in *; subst;
  try (exfalso; apply Hne; exact I).

Ltac inv_cases H :=
  let s0 := fresh "s0" in
  let coin := fresh "coin" in
  let Hx := fresh "Hx" in
  destruct H as [H|(s0 & coin & H & -> & Hx)];
  [ match goal with s : state |- _ => open_live H s end
  | open_live H s0;
    unfold main_step, createMQTTClient, exited in *; simpl in *;
    case_matches; try contradiction ].

Lemma ends_fatal_split (msg : string) (tr : list event) :
  ends_fatal msg tr -> exists pre, tr = pre ++ [Log msg; Exit 1].
Proof.
  unfold ends_fatal. intros H.
  destruct (rev tr) as [|e1 l] eqn:E; [contradiction|].
  repeat match type of H with
         | match ?x with _ => _ end => destruct x; try contradiction
         end.
  subst. exists (rev l). rewrite <- (rev_involutive tr), E. simpl.
  rewrite <- app_assoc. reflexivity.
Qed.

Lemma existsb_false_elem {A} (f : A -> bool) (l : list A) :
  existsb f l = false -> forall x, x ∈ l -> f x = false.
Proof.
  intros H x Hx. destruct (f x) eqn:E; [|reflexivity].
  rewrite <- H. symmetry. apply existsb_exists. exists x. split; [|exact E].
  apply list_elem_of_In, Hx.
Qed.

Lemma existsb_true_elem {A} (f : A -> bool) (l : list A) (x : A) :
  x ∈ l -> f x = true -> existsb f l = true.
Proof.
  intros Hx E. apply existsb_exists. exists x. split; [|exact E].
  apply list_elem_of_In, Hx.
Qed.

Ltac abort_tac :=
  split; [reflexivity | apply ends_fatal_split; lazy; reflexivity].

Ltac absurd_check :=
  match goal with
  | |- ?b = true -> _ =>
      let X := fresh in
      let E := fresh in
      assert (X : b = false) by reflexivity; intros E; congruence
  end.

Lemma is_subscribe_elem (t : string) (l : list event) :
  existsb (is_subscribe t) l = true -> Subscribe t 1 ∈ l.
Proof.
  intros H. apply existsb_exists in H as (e & Hin & He).
  destruct e; try discriminate. simpl in He.
  apply andb_true_iff in He as [H1 H2].
  apply String.eqb_eq in H1. apply N.eqb_eq in H2. subst.
  apply list_elem_of_In, Hin.
Qed.

Lemma ordered_from_split (tr before pre post : list event)
    (t : string) (q : N) (ret : bool) (payload : bytes) :
  ordered_from before tr = true ->
  tr = pre ++ Publish t q ret payload :: post ->
  (t = topicCreateCertificate /\
   Subscribe topicCreateAccepted 1 ∈ before ++ pre /\
   Subscribe topicCreateRejected 1 ∈ before ++ pre) \/
  (t = topicRegisterThing /\
   Subscribe topicRegisterAccepted 1 ∈ before ++ pre /\
   Subscribe topicRegisterRejected 1 ∈ before ++ pre).
Proof.
  revert before pre. induction tr as [|e tr IH]; intros before pre H E.
  - destruct pre; discriminate.
  - simpl in H. apply andb_true_iff in H as [He Htr].
    destruct pre as [|e' pre]; simpl in E; injection E as -> ->.
    + rewrite app_nil_r.
      destruct (String.eqb t topicCreateCertificate) eqn:E1.
      * apply String.eqb_eq in E1. apply andb_true_iff in He as [H1 H2].
        left. auto using is_subscribe_elem.
      * destruct (String.eqb t topicRegisterThing) eqn:E2; [|discriminate].
        apply String.eqb_eq in E2. apply andb_true_iff in He as [H1 H2].
        right. auto using is_subscribe_elem.
    + specialize (IH (before ++ [e']) pre Htr eq_refl).
      rewrite <- !app_assoc in IH. exact IH.
Qed.

Lemma forallb_elem {A} (f : A -> bool) (l : list A) :
  forallb f l = true -> forall x, x ∈ l -> f x = true.
Proof.
  intros H x Hx. eapply forallb_forall in H; [exact H|].
  apply list_elem_of_In, Hx.
Qed.

Lemma elem_of_writes (e : event) (tr : list event) :
  e ∈ tr -> is_write e = true -> e ∈ writes tr.
Proof.
  intros Hin He. apply list_elem_of_In. apply filter_In. split; [|exact He].
  apply list_elem_of_In, Hin.
Qed.

Section Proofs.
Context {codec : Codec} (w : World).

Lemma Inv_init : Inv w init.
Proof.
  left. unfold live_shape, chans_ok. simpl. split_all; auto; try discriminate.
Qed.

Lemma main_step_live (s : state) (coin : bool) :
  live_shape w s -> exited (main_step w coin s) \/ live_shape w (main_step w coin s).
Proof.
  intros (Hne & Htr & Hro & HA & HB & Hw & Hb & Hbr & Hpc).
  destruct s as [p clk ro bl c1 c2 c3 c4 a b tr]; simpl in *.
  destruct p; simpl in *; subst.
  all: try (exfalso; apply Hne; exact I).
  all: destruct bl as [[]|].
  all: unfold main_step, createMQTTClient, recv_certResponse, recv_certError,
         recv_registerResponse, recv_registerError; simpl; case_matches.
  all: try (left; exact I).
  all: right.
  all: solve [live_tac].
Qed.

Lemma deliver_live (s : state) (t : string) (p : bytes) :
  live_shape w s -> live_shape w (deliver t p s).
Proof.
  intros H. pose proof H as (Hne & Htr & Hro & HA & HB & Hw & Hb & Hbr & Hpc).
  destruct s as [q clk ro bl c1 c2 c3 c4 a b tr]; simpl in *.
  destruct q; simpl in *; subst.
  all: try (exfalso; apply Hne; exact I).
  all: destruct bl as [[]|]; try exact H.
  all: unfold deliver; cbn [at_pc blocked routes]; try exact H.
  all: match goal with
       | |- context [matchRoute ?t ?r] =>
           destruct (matchRoute t r) as [h|] eqn:Hm; [|exact H]
       end.
  all: clear H; route_cases Hm.
  all: unfold run_handler, chan_send; simpl; case_matches.
  all: solve [live_tac].
Qed.

Lemma tick_live (s : state) (d : N) : live_shape w s -> live_shape w (tick d s).
Proof.
  intros (Hne & Htr & Hro & HA & HB & Hw & Hb & Hbr & Hpc).
  destruct s as [q clk ro bl c1 c2 c3 c4 a b tr]; simpl in *.
  destruct q; simpl in *; subst.
  all: try (exfalso; apply Hne; exact I).
  all: destruct bl as [[]|].
  all: unfold tick; simpl; case_matches.
  all: try solve [live_tac].
  all: match goal with
       | E : N.leb _ _ = false |- _ => apply N.leb_gt in E
       end.
  all: solve [live_tac].
Qed.

Lemma step_exited (s : state) (ev : sched_event) : exited s -> step w s ev = s.
Proof.
  unfold exited. destruct s as [q clk ro bl c1 c2 c3 c4 a b tr]; simpl.
  destruct q; try contradiction. intros _. destruct ev; reflexivity.
Qed.

Lemma exec_exited (sched : list sched_event) (s : state) :
  exited s -> exec w sched s = s.
Proof.
  induction sched as [|ev sched IH]; intros H; [reflexivity|].
  unfold exec in *. simpl. rewrite step_exited by exact H. auto.
Qed.

Lemma Inv_step (s : state) (ev : sched_event) : Inv w s -> Inv w (step w s ev).
Proof.
  intros [H|(s0 & coin & H0 & -> & Hx)].
  - destruct ev as [coin|t p|d]; simpl.
    + destruct (main_step_live s coin H) as [Hx|Hl]; [|left; exact Hl].
      right. exists s, coin. auto.
    + left. apply deliver_live, H.
    + left. apply tick_live, H.
  - rewrite step_exited by exact Hx. right. exists s0, coin. auto.
Qed.

Lemma exec_snoc (sched : list sched_event) (ev : sched_event) (s : state) :
  exec w (sched ++ [ev]) s = step w (exec w sched s) ev.
Proof. unfold exec. apply foldl_snoc. Qed.

Lemma exec_app (s1 s2 : list sched_event) (s : state) :
  exec w (s1 ++ s2) s = exec w s2 (exec w s1 s).
Proof. unfold exec. apply foldl_app. Qed.

Lemma Inv_exec (sched : list sched_event) (s : state) :
  Inv w s -> Inv w (exec w sched s).
Proof.
  revert s. induction sched as [|ev sched IH]; intros s H; [exact H|].
  apply (IH (step w s ev)), Inv_step, H.
Qed.

Lemma Inv_run (sched : list sched_event) : Inv w (run w sched).
Proof. apply Inv_exec, Inv_init. Qed.

(** *** Where the held values come from *)

Lemma addRoute_ok (t : string) (h : handler) (r : list (string * handler)) :
  handler_topic h = t ->
  (forall t' h', (t', h') ∈ r -> handler_topic h' = t') ->
  forall t' h', (t', h') ∈ addRoute t h r -> handler_topic h' = t'.
Proof.
  intros Hh. induction r as [|[t0 h0] r IH]; simpl; intros Hr t' h' Hin.
  - apply list_elem_of_singleton in Hin. congruence.
  - destruct (String.eqb t0 t) eqn:E.
    + apply String.eqb_eq in E. apply elem_of_cons in Hin as [Hin|Hin].
      * injection Hin as -> ->. congruence.
      * apply Hr. right. exact Hin.
    + apply elem_of_cons in Hin as [Hin|Hin].
      * injection Hin as -> ->. apply Hr. left.
      * apply IH; [|exact Hin]. intros. apply Hr. right. assumption.
Qed.

Lemma routes_ok_main_step (s : state) (coin : bool) :
  routes_ok s -> routes_ok (main_step w coin s).
Proof.
  unfold routes_ok. intros H.
  destruct s as [q clk ro bl c1 c2 c3 c4 a b tr]; simpl in *.
  destruct q; unfold main_step, createMQTTClient, recv_certResponse, recv_certError,
    recv_registerResponse, recv_registerError; cbn [at_pc routes];
    case_matches; try exact H.
  all: apply addRoute_ok; [reflexivity | exact H].
Qed.

Lemma routes_ok_step (s : state) (ev : sched_event) :
  routes_ok s -> routes_ok (step w s ev).
Proof.
  intros H. destruct ev as [coin|t p|d]; simpl.
  - apply routes_ok_main_step, H.
  - unfold routes_ok, deliver, chan_send in *.
    destruct s as [q clk ro bl c1 c2 c3 c4 a b tr]; simpl in *.
    case_matches; exact H.
  - unfold routes_ok, tick in *.
    destruct s as [q clk ro bl c1 c2 c3 c4 a b tr]; simpl in *.
    case_matches; exact H.
Qed.

Lemma held_main_step (s : state) (coin : bool) (m : send) :
  held (main_step w coin s) m -> held s m.
Proof.
  destruct s as [q clk ro bl c1 c2 c3 c4 a b tr].
  destruct q; unfold main_step, createMQTTClient, recv_certResponse, recv_certError,
    recv_registerResponse, recv_registerError; cbn [at_pc routes];
    case_matches; unfold held; destruct m; simpl; intros; simplify_eq/=;
    intuition (simplify_eq/=; auto).
Qed.

Lemma held_tick (s : state) (d : N) (m : send) : held (tick d s) m -> held s m.
Proof.
  destruct s as [q clk ro bl c1 c2 c3 c4 a b tr].
  destruct q; unfold tick; cbn [at_pc]; case_matches; unfold held; destruct m; simpl;
    intuition (simplify_eq/=; auto).
Qed.

Lemma held_deliver (s : state) (t : string) (p : bytes) (m : send) :
  held (deliver t p s) m ->
  held s m \/ exists h, matchRoute t (routes s) = Some h /\ run_handler h p = m.
Proof.
  destruct s as [q clk ro bl c1 c2 c3 c4 a b tr].
  unfold deliver. cbn [at_pc blocked routes].
  destruct q; try (left; assumption).
  all: destruct bl; try (left; assumption).
  all: destruct (matchRoute t ro) as [h|]; try (left; assumption).
  all: destruct (run_handler h p) eqn:E.
  all: unfold chan_send; simpl; case_matches; unfold held; destruct m; simpl;
    intuition (simplify_eq/=; eauto).
Qed.

Lemma sent_in_snoc (sched : list sched_event) (ev : sched_event) (m : send) :
  sent_in sched m -> sent_in (sched ++ [ev]) m.
Proof.
  intros (h & p & Hin & Hm). exists h, p. split; [|exact Hm].
  apply elem_of_app. left. exact Hin.
Qed.

Lemma provenance_step (sched : list sched_event) (s : state) (ev : sched_event) :
  provenance sched s -> provenance (sched ++ [ev]) (step w s ev).
Proof.
  intros [Hr Hp]. split; [apply routes_ok_step, Hr|].
  intros m Hm. destruct ev as [coin|t p|d]; simpl in Hm.
  - apply sent_in_snoc, Hp, (held_main_step _ _ _ Hm).
  - apply held_deliver in Hm as [Hm|(h & Hh & <-)].
    + apply sent_in_snoc, Hp, Hm.
    + exists h, p. split; [|reflexivity].
      apply matchRoute_In, list_elem_of_In, Hr in Hh. rewrite Hh.
      apply elem_of_app. right. apply list_elem_of_singleton. reflexivity.
  - apply sent_in_snoc, Hp, (held_tick _ _ _ Hm).
Qed.

Lemma provenance_run (sched : list sched_event) : provenance sched (run w sched).
Proof.
  induction sched as [|ev sched IH] using rev_ind.
  - split.
    + intros t h Hin. apply elem_of_nil in Hin. contradiction.
    + intros m Hm. unfold held in Hm. destruct m; simpl in Hm;
        intuition discriminate.
  - unfold run. rewrite exec_snoc. apply provenance_step, IH.
Qed.



Lemma fatal_aborted (msg : string) (s : state) : aborted_with msg (fatal msg s).
Proof. split; [reflexivity|]. exists (trace s). reflexivity. Qed.

Lemma aborted_exited (msg : string) (s : state) : aborted_with msg s -> exited s.
Proof. intros [H _]. unfold exited. rewrite H. exact I. Qed.

Lemma aborted_step (msg : string) (s : state) (ev : sched_event) :
  aborted_with msg s -> aborted_with msg (step w s ev).
Proof. intros H. rewrite step_exited; [exact H|]. eapply aborted_exited, H. Qed.

Lemma aborted_exec (msg : string) (s : state) (sched : list sched_event) :
  aborted_with msg s -> aborted_with msg (exec w sched s).
Proof. intros H. rewrite exec_exited; [exact H|]. eapply aborted_exited, H. Qed.

(** *** What one step changes *)

Lemma trace_deliver (t : string) (p : bytes) (s : state) :
  trace (deliver t p s) = trace s.
Proof.
  destruct s as [q clk ro bl c1 c2 c3 c4 a b tr].
  unfold deliver, chan_send. cbn [at_pc blocked routes].
  case_matches; reflexivity.
Qed.

Lemma trace_tick (d : N) (s : state) : trace (tick d s) = trace s.
Proof.
  destruct s as [q clk ro bl c1 c2 c3 c4 a b tr].
  unfold tick. cbn [at_pc]. case_matches; reflexivity.
Qed.

Lemma stepA_step (s : state) (ev : sched_event) :
  at_pc s <> PSelectCreate -> (forall d, at_pc s <> PBlockedCreate d) ->
  stepA (step w s ev) = stepA s.
Proof.
  destruct s as [q clk ro bl c1 c2 c3 c4 a b tr]. cbn [at_pc]. intros H1 H2.
  destruct q; try congruence; try (exfalso; eapply H2; reflexivity).
  all: destruct ev; unfold step, main_step, deliver, chan_send, tick, createMQTTClient,
         recv_registerResponse, recv_registerError;
       cbn [at_pc blocked routes]; case_matches; reflexivity.
Qed.

Lemma stepB_step (s : state) (ev : sched_event) :
  (forall c, at_pc s <> PSelectRegister c) ->
  (forall d c, at_pc s <> PBlockedRegister d c) ->
  stepB (step w s ev) = stepB s.
Proof.
  destruct s as [q clk ro bl c1 c2 c3 c4 a b tr]. cbn [at_pc]. intros H1 H2.
  destruct q; try (exfalso; eapply H1; reflexivity);
    try (exfalso; eapply H2; reflexivity).
  all: destruct ev; unfold step, main_step, deliver, chan_send, tick, createMQTTClient,
         recv_certResponse, recv_certError;
       cbn [at_pc blocked routes]; case_matches; reflexivity.
Qed.

Lemma stepA_resolved_pc (s : state) (o : ExchangeOutcome CreateCertificateResponse) :
  Inv w s -> stepA s = Some o ->
  at_pc s <> PSelectCreate /\ forall d, at_pc s <> PBlockedCreate d.
Proof.
  intros H. inv_cases H; intros E; try discriminate; split; intros; discriminate.
Qed.

Lemma stepB_resolved_pc (s : state) (o : ExchangeOutcome RegisterThingResponse) :
  Inv w s -> stepB s = Some o ->
  (forall c, at_pc s <> PSelectRegister c) /\ forall d c, at_pc s <> PBlockedRegister d c.
Proof.
  intros H. inv_cases H; intros E; try discriminate; split; intros; discriminate.
Qed.

Lemma stepA_stable (sched : list sched_event) (s : state)
    (o : ExchangeOutcome CreateCertificateResponse) :
  Inv w s -> stepA s = Some o -> stepA (exec w sched s) = Some o.
Proof.
  revert s. induction sched as [|ev sched IH]; intros s Hi E; [exact E|].
  apply (IH (step w s ev)); [apply Inv_step, Hi|].
  destruct (stepA_resolved_pc s o Hi E) as [H1 H2].
  rewrite stepA_step; assumption.
Qed.

Lemma stepB_stable (sched : list sched_event) (s : state)
    (o : ExchangeOutcome RegisterThingResponse) :
  Inv w s -> stepB s = Some o -> stepB (exec w sched s) = Some o.
Proof.
  revert s. induction sched as [|ev sched IH]; intros s Hi E; [exact E|].
  apply (IH (step w s ev)); [apply Inv_step, Hi|].
  destruct (stepB_resolved_pc s o Hi E) as [H1 H2].
  rewrite stepB_step; assumption.
Qed.



(** *** The calls a run has made *)

Lemma failure_shape (s : state) (reason : string) :
  Inv w s -> stepA s = Some (Failure reason) ->
  existsb registration_op (trace s) = false /\
  writes (trace s) = [] /\
  (at_pc s = PCertError reason \/
   aborted_with ("Certificate creation failed: " +:+ reason) s).
Proof.
  intros H. inv_cases H; intros E; try discriminate; injection E as <-.
  all: split; [reflexivity|]; split; [reflexivity|].
  - left. reflexivity.
  - right. abort_tac.
Qed.

Lemma timeout_shape (s : state) :
  Inv w s -> stepA s = Some TimedOut ->
  existsb registration_op (trace s) = false /\
  writes (trace s) = [] /\
  (at_pc s = PCertTimeout \/
   aborted_with "Timeout waiting for certificate creation response" s).
Proof.
  intros H. inv_cases H; intros E; try discriminate.
  all: split; [reflexivity|]; split; [reflexivity|].
  - left. reflexivity.
  - right. abort_tac.
Qed.

Lemma unresolved_shape (s : state) :
  Inv w s -> stepA s = None ->
  existsb registration_op (trace s) = false /\ writes (trace s) = [].
Proof.
  intros H. inv_cases H; intros E; try discriminate.
  all: split; reflexivity.
Qed.

Lemma success_shape (s : state) (r : CreateCertificateResponse) :
  Inv w s -> stepA s = Some (Success r) ->
  (at_pc s = PCertResponse r /\ writes (trace s) = []) \/
  (writes (trace s) =
     [WriteFile permanentCertFile (list_byte_of_string (CertificatePem r)) perm_0644] /\
   existsb registration_op (trace s) = false /\
   (at_pc s = PWriteKey r /\ WriteFile_error w permanentCertFile = None \/
    exists e, WriteFile_error w permanentCertFile = Some e /\
      aborted_with ("Failed to write permanent certificate to file: " +:+ e) s)) \/
  (writes (trace s) = credential_writes r /\
   WriteFile_error w permanentCertFile = None /\
   (forall c, at_pc s <> PCertResponse c) /\ (forall c, at_pc s <> PWriteKey c) /\
   (WriteFile_error w permanentKeyFile = None \/
    existsb registration_op (trace s) = false /\
    exists e, WriteFile_error w permanentKeyFile = Some e /\
      aborted_with ("Failed to write permanent private key to file: " +:+ e) s)).
Proof.
  intros H. inv_cases H; intros E; try discriminate; injection E as <-.
  all: lazymatch goal with
       | H : WriteFile_error w permanentCertFile = Some _ |- _ =>
           right; left; split; [reflexivity|]; split; [reflexivity|];
           right; eexists; split; [first [exact H | reflexivity] | abort_tac]
       | H : WriteFile_error w permanentKeyFile = Some _ |- _ =>
           right; right; split; [reflexivity|]; split; [solve [live_tac]|];
           split; [intros; discriminate|]; split; [intros; discriminate|];
           right; split; [reflexivity|]; eexists; split; [first [exact H | reflexivity] | abort_tac]
       | |- PCertResponse _ = PCertResponse _ /\ _ \/ _ => left; split; reflexivity
       | |- PWriteKey _ = PCertResponse _ /\ _ \/ _ =>
           right; left; split; [reflexivity|]; split; [reflexivity|];
           left; split; [reflexivity | solve [live_tac]]
       | _ =>
           right; right; split; [reflexivity|]; split; [solve [live_tac]|];
           split; [intros; discriminate|]; split; [intros; discriminate|];
           left; solve [live_tac]
       end.
Qed.

End Proofs.

Section Shapes.
Context {codec : Codec} (w : World).

Lemma ordered_run (s : state) : Inv w s -> ordered_from [] (trace s) = true.
Proof. intros H. inv_cases H; reflexivity. Qed.

Lemma topics_run (s : state) : Inv w s -> forallb topic_ok (trace s) = true.
Proof. intros H. inv_cases H; reflexivity. Qed.

Lemma routes_run (s : state) (t : string) (h : handler) :
  Inv w s -> (t, h) ∈ routes s -> handler_topic h = t.
Proof.
  intros H Hin. apply list_elem_of_In in Hin. revert Hin.
  inv_cases H; simpl; intuition (simplify_eq; reflexivity).
Qed.

Lemma writes_cases (s : state) :
  Inv w s ->
  writes (trace s) = [] \/
  exists r, stepA s = Some (Success r) /\
    (writes (trace s) =
       [WriteFile permanentCertFile (list_byte_of_string (CertificatePem r)) perm_0644] \/
     writes (trace s) = credential_writes r).
Proof.
  intros H. destruct (stepA s) as [[r|e|]|] eqn:E.
  - destruct (success_shape w s r H E) as [[_ H1]|[(H1 & _)|(H1 & _)]]; eauto.
  - left. apply (failure_shape w s e H E).
  - left. apply (timeout_shape w s H E).
  - left. apply (unresolved_shape w s H E).
Qed.

Lemma registration_shape (s : state) :
  Inv w s -> existsb registration_op (trace s) = true ->
  exists r, stepA s = Some (Success r) /\ keyWritten_ok w /\
    writes (trace s) = credential_writes r.
Proof.
  intros H. inv_cases H.
  all: try absurd_check.
  all: intros _; eexists; split; [reflexivity|]; split; [solve [live_tac] | reflexivity].
Qed.



(** *** A [select] that waits *)

Lemma blocked_create_state (s : state) (dl : N) :
  Inv w s -> at_pc s = PBlockedCreate dl ->
  routes s = routes_create /\ blocked s = None /\
  certResponseChan s = None /\ certErrorChan s = None /\ stepA s = None.
Proof.
  intros [H|(s0 & coin & _ & -> & Hx)] E.
  - destruct H as (_ & _ & Hro & HA & _ & _ & Hb & Hbr & Hpc).
    rewrite E in *. simpl in *. destruct Hpc as (H1 & H2 & _).
    destruct (Hbr eq_refl) as [H3 H4].
    repeat split; try assumption.
    destruct (blocked s) as [m|] eqn:Em; [|reflexivity].
    specialize (Hb m eq_refl). destruct m; simpl in Hb; congruence.
  - unfold exited in Hx. rewrite E in Hx. contradiction.
Qed.

Lemma blocked_register_state (s : state) (dl : N) (c : CreateCertificateResponse) :
  Inv w s -> at_pc s = PBlockedRegister dl c ->
  routes s = routes_register /\
  registerResponseChan s = None /\ registerErrorChan s = None /\ stepB s = None.
Proof.
  intros [H|(s0 & coin & _ & -> & Hx)] E.
  - destruct H as (_ & _ & Hro & _ & HB & _ & Hb & Hbr & Hpc).
    rewrite E in *. simpl in *. destruct Hpc as (H1 & H2 & _).
    repeat split; assumption.
  - unfold exited in Hx. rewrite E in Hx. contradiction.
Qed.

Lemma deliver_create_waiting (s : state) (dl : N) (h : handler) (p : bytes) :
  Inv w s -> at_pc s = PBlockedCreate dl ->
  h = OnCreateAccepted \/ h = OnCreateRejected ->
  stepA (deliver (handler_topic h) p s) =
  match run_handler h p with
  | SendCertResponse r => Some (Success r)
  | SendCertError e => Some (Failure e)
  | _ => None
  end.
Proof.
  intros Hi E Hh. destruct (blocked_create_state s dl Hi E) as (Hro & Hbl & _).
  unfold deliver. rewrite E, Hbl, Hro.
  destruct Hh as [-> | ->]; simpl.
  - destruct (json_Unmarshal_CreateCertificateResponse p); simpl; rewrite E; reflexivity.
  - rewrite E. reflexivity.
Qed.

Lemma deliver_register_waiting (s : state) (dl : N) (c : CreateCertificateResponse)
    (h : handler) (p : bytes) :
  Inv w s -> at_pc s = PBlockedRegister dl c -> blocked s = None ->
  h = OnRegisterAccepted \/ h = OnRegisterRejected ->
  stepB (deliver (handler_topic h) p s) =
  match run_handler h p with
  | SendRegisterResponse r => Some (Success r)
  | SendRegisterError e => Some (Failure e)
  | _ => None
  end.
Proof.
  intros Hi E Hbl Hh. destruct (blocked_register_state s dl c Hi E) as (Hro & _).
  unfold deliver. rewrite E, Hbl, Hro.
  destruct Hh as [-> | ->]; simpl.
  - destruct (json_Unmarshal_RegisterThingResponse p); simpl; rewrite E; reflexivity.
  - rewrite E. reflexivity.
Qed.









(** *** Reading the provenance *)

Lemma sent_cert_response (sched : list sched_event) (r : CreateCertificateResponse) :
  sent_in sched (SendCertResponse r) ->
  exists p, EvDeliver topicCreateAccepted p ∈ sched /\
    json_Unmarshal_CreateCertificateResponse p = Ok r.
Proof.
  intros (h & p & Hin & Hm). destruct h; simpl in Hm; try discriminate.
  - exists p. split; [exact Hin|].
    destruct (json_Unmarshal_CreateCertificateResponse p); congruence.
  - destruct (json_Unmarshal_RegisterThingResponse p); discriminate.
Qed.

Lemma sent_register_response (sched : list sched_event) (r : RegisterThingResponse) :
  sent_in sched (SendRegisterResponse r) ->
  exists p, EvDeliver topicRegisterAccepted p ∈ sched /\
    json_Unmarshal_RegisterThingResponse p = Ok r.
Proof.
  intros (h & p & Hin & Hm). destruct h; simpl in Hm; try discriminate.
  - destruct (json_Unmarshal_CreateCertificateResponse p); discriminate.
  - exists p. split; [exact Hin|].
    destruct (json_Unmarshal_RegisterThingResponse p); congruence.
Qed.

Lemma accepted_provenance (sched : list sched_event) (r : CreateCertificateResponse) :
  stepA (run w sched) = Some (Success r) ->
  exists p, EvDeliver topicCreateAccepted p ∈ sched /\
    json_Unmarshal_CreateCertificateResponse p = Ok r.
Proof.
  intros E. apply sent_cert_response.
  apply (proj2 (provenance_run w sched)). right. right. exact E.
Qed.

Lemma registered_provenance (sched : list sched_event) (r : RegisterThingResponse) :
  stepB (run w sched) = Some (Success r) ->
  exists p, EvDeliver topicRegisterAccepted p ∈ sched /\
    json_Unmarshal_RegisterThingResponse p = Ok r.
Proof.
  intros E. apply sent_register_response.
  apply (proj2 (provenance_run w sched)). right. right. exact E.
Qed.

Lemma run_app (s1 s2 : list sched_event) :
  run w (s1 ++ s2) = exec w s2 (run w s1).
Proof. apply exec_app. Qed.

Lemma run_cons (s1 s2 : list sched_event) (ev : sched_event) :
  run w (s1 ++ ev :: s2) = exec w s2 (step w (run w s1) ev).
Proof. rewrite run_app. reflexivity. Qed.

Lemma writes_app (l1 l2 : list event) : writes (l1 ++ l2) = writes l1 ++ writes l2.
Proof. apply List.filter_app. Qed.

Lemma writes_main_step (coin : bool) (s : state) :
  writes (trace (main_step w coin s)) =
  writes (trace s) ++
  match at_pc s with
  | PCertResponse r =>
      [WriteFile permanentCertFile (list_byte_of_string (CertificatePem r)) perm_0644]
  | PWriteKey r =>
      [WriteFile permanentKeyFile (list_byte_of_string (PrivateKey r)) perm_0600]
  | _ => []
  end.
Proof.
  destruct s as [q clk ro bl c1 c2 c3 c4 a b tr].
  destruct q; unfold main_step, createMQTTClient, recv_certResponse, recv_certError,
    recv_registerResponse, recv_registerError, fatal; cbn [at_pc];
    case_matches; cbn [trace goto emit resolveA resolveB set_certResponseChan
      set_certErrorChan set_registerResponseChan set_registerErrorChan set_blocked
      set_routes set_clock];
    rewrite ?writes_app; cbn [writes List.filter is_write app];
    rewrite ?app_nil_r; reflexivity.
Qed.

End Shapes.

Section Claims.
Context {codec : Codec} (w : World).

Lemma no_registration_elem (tr : list event) :
  existsb registration_op tr = false ->
  forall e, e ∈ tr -> registration_op e = false.
Proof. apply existsb_false_elem. Qed.

Lemma cert_error_next (s : state) (reason : string) (coin : bool) :
  at_pc s = PCertError reason \/
  aborted_with ("Certificate creation failed: " +:+ reason) s ->
  aborted_with ("Certificate creation failed: " +:+ reason) (step w s (EvMain coin)).
Proof.
  intros [E|H]; [|apply aborted_step, H].
  simpl. unfold main_step. rewrite E. apply fatal_aborted.
Qed.

Lemma cert_timeout_next (s : state) (coin : bool) :
  at_pc s = PCertTimeout \/
  aborted_with "Timeout waiting for certificate creation response" s ->
  aborted_with "Timeout waiting for certificate creation response"
    (step w s (EvMain coin)).
Proof.
  intros [E|H]; [|apply aborted_step, H].
  simpl. unfold main_step. rewrite E. apply fatal_aborted.
Qed.

(** C1 -- Step B starts only after Step A succeeded.  In every run, a
    publish or subscribe on a registration topic is in the trace only if the
    first [select] took the response case; when it took the error case or
    timed out, no such call has been made and the next statement of [main]
    ends the process in [log.Fatal] with that reason. *)
Theorem registration_only_after_issuance (sched : list sched_event) :
  let s := run w sched in
  (forall e, e ∈ trace s -> registration_op e = true ->
     exists r, stepA s = Some (Success r)) /\
  (forall reason coin, stepA s = Some (Failure reason) ->
     (forall e, e ∈ trace s -> registration_op e = false) /\
     aborted_with ("Certificate creation failed: " +:+ reason)
       (step w s (EvMain coin))) /\
  (forall coin, stepA s = Some TimedOut ->
     (forall e, e ∈ trace s -> registration_op e = false) /\
     aborted_with "Timeout waiting for certificate creation response"
       (step w s (EvMain coin))).
Proof.
  intros s. pose proof (Inv_run w sched) as Hi. fold s in Hi.
  split; [|split].
  - intros e Hin He.
    destruct (registration_shape w s Hi (existsb_true_elem _ _ _ Hin He)) as (r & Hr & _).
    exists r. exact Hr.
  - intros reason coin E.
    destruct (failure_shape w s reason Hi E) as (H1 & _ & H3).
    split; [apply no_registration_elem, H1 | apply cert_error_next, H3].
  - intros coin E.
    destruct (timeout_shape w s Hi E) as (H1 & _ & H3).
    split; [apply no_registration_elem, H1 | apply cert_timeout_next, H3].
Qed.


(** *** Persisting the issued credentials *)

Lemma writes_step (s : state) (ev : sched_event) :
  (forall c, at_pc s <> PCertResponse c) -> (forall c, at_pc s <> PWriteKey c) ->
  writes (trace (step w s ev)) = writes (trace s).
Proof.
  intros H1 H2. destruct ev as [coin|t p|d]; simpl.
  - rewrite writes_main_step.
    destruct (at_pc s) eqn:E; try apply app_nil_r.
    + destruct (H1 certResponse eq_refl).
    + destruct (H2 certResponse eq_refl).
  - rewrite trace_deliver. reflexivity.
  - rewrite trace_tick. reflexivity.
Qed.

(** Once both files are written, nothing else is. *)
Lemma writes_complete_step (s : state) (r : CreateCertificateResponse)
    (ev : sched_event) :
  Inv w s -> stepA s = Some (Success r) ->
  writes (trace s) = credential_writes r ->
  writes (trace (step w s ev)) = credential_writes r.
Proof.
  intros Hi E Hw.
  destruct (success_shape w s r Hi E)
    as [[_ H]|[(H & _)|(_ & _ & H1 & H2 & _)]].
  - rewrite Hw in H. discriminate.
  - rewrite Hw in H. discriminate.
  - rewrite writes_step; assumption.
Qed.







Lemma routes_at (s : state) :
  Inv w s -> ~ exited s -> routes s = expected_routes (at_pc s).
Proof.
  intros [H|(s0 & coin & _ & _ & Hx)] Hn; [|contradiction].
  apply H.
Qed.

(** C7 -- subscribe before publish.  In every run, wherever a publish
    stands in the trace it goes to one of the two request topics, and the
    subscriptions to the accept topic and to the reject topic of that
    request stand before it; and when [main] stands at one of its two
    publish statements, the callbacks of both response topics of that
    request are in the client's routing table. *)
Theorem subscribe_before_publish (sched : list sched_event) :
  let s := run w sched in
  (forall pre post t q ret payload,
     trace s = pre ++ Publish t q ret payload :: post ->
     (t = topicCreateCertificate /\
      Subscribe topicCreateAccepted 1 ∈ pre /\ Subscribe topicCreateRejected 1 ∈ pre) \/
     (t = topicRegisterThing /\
      Subscribe topicRegisterAccepted 1 ∈ pre /\
      Subscribe topicRegisterRejected 1 ∈ pre)) /\
  (at_pc s = PPublishCreate ->
   matchRoute topicCreateAccepted (routes s) = Some OnCreateAccepted /\
   matchRoute topicCreateRejected (routes s) = Some OnCreateRejected) /\
  (forall r, at_pc s = PPublishRegister r ->
   matchRoute topicRegisterAccepted (routes s) = Some OnRegisterAccepted /\
   matchRoute topicRegisterRejected (routes s) = Some OnRegisterRejected).
Proof.
  intros s. pose proof (Inv_run w sched) as Hi. fold s in Hi.
  split; [|split].
  - intros pre post t q ret payload E.
    apply (ordered_from_split (trace s) [] pre post t q ret payload); [|exact E].
    apply (ordered_run w), Hi.
  - intros E. rewrite (routes_at s Hi) by (unfold exited; rewrite E; tauto).
    rewrite E. split; reflexivity.
  - intros r E. rewrite (routes_at s Hi) by (unfold exited; rewrite E; tauto).
    rewrite E. split; reflexivity.
Qed.

(** C9 -- the topic contract.  The six topic constants are the strings of
    the contract, the accept and reject topics being the request topic
    followed by [/accepted] and [/rejected], and the registration topic
    being built from the configured template name; in every run each
    publish goes to one of the two request topics, each subscription to one
    of the four response topics, and each callback is routed under the
    topic it was written for. *)
Theorem topic_contract (sched : list sched_event) :
  let s := run w sched in
  topicCreateCertificate = "$aws/certificates/create/json" /\
  topicCreateAccepted = topicCreateCertificate +:+ "/accepted" /\
  topicCreateRejected = topicCreateCertificate +:+ "/rejected" /\
  topicRegisterThing =
    "$aws/provisioning-templates/" +:+ templateName +:+ "/provision/json" /\
  topicRegisterAccepted = topicRegisterThing +:+ "/accepted" /\
  topicRegisterRejected = topicRegisterThing +:+ "/rejected" /\
  (forall t q ret payload, Publish t q ret payload ∈ trace s ->
     t = topicCreateCertificate \/ t = topicRegisterThing) /\
  (forall t q, Subscribe t q ∈ trace s ->
     t = topicCreateAccepted \/ t = topicCreateRejected \/
     t = topicRegisterAccepted \/ t = topicRegisterRejected) /\
  (forall t h, (t, h) ∈ routes s -> t = handler_topic h).
Proof.
  intros s. pose proof (Inv_run w sched) as Hi. fold s in Hi.
  pose proof (forallb_elem _ _ (topics_run w s Hi)) as Ht.
  repeat (split; [reflexivity|]). split; [|split].
  - intros t q ret payload Hin. specialize (Ht _ Hin). simpl in Ht.
    apply orb_true_iff in Ht as [H|H]; apply String.eqb_eq in H; auto.
  - intros t q Hin. specialize (Ht _ Hin). simpl in Ht.
    repeat (apply orb_true_iff in Ht as [Ht|Ht]); apply String.eqb_eq in Ht; auto.
  - intros t h Hin. symmetry. eapply routes_run; eassumption.
Qed.

Lemma fs_after_frame (tr : list event) (fs : gmap string bytes) (f : string) :
  (forall name data perm, WriteFile name data perm ∈ tr -> name <> f) ->
  fs_after tr fs !! f = fs !! f.
Proof.
  revert fs. induction tr as [|e tr IH]; intros fs H; [reflexivity|].
  assert (Htl : forall name data perm, WriteFile name data perm ∈ tr -> name <> f)
    by (intros; eapply H; right; eassumption).
  destruct e; simpl; try (apply IH, Htl).
  rewrite IH by exact Htl. apply lookup_insert_ne. eapply H. left.
Qed.

(** C10 -- the claim credentials are left alone.  In every run each
    [os.WriteFile] call names one of the two output files, which differ
    from each other and from the three files read at startup, so the
    certificate, private-key and root-CA files hold after the run what they
    held before. *)
Theorem claim_credentials_untouched (sched : list sched_event)
    (fs : gmap string bytes) :
  let s := run w sched in
  (forall name data perm, WriteFile name data perm ∈ trace s ->
     name = permanentCertFile \/ name = permanentKeyFile) /\
  permanentCertFile <> permanentKeyFile /\
  Forall (fun f => f <> permanentCertFile /\ f <> permanentKeyFile /\
                   fs_after (trace s) fs !! f = fs !! f)
    [certificateFile; privateKeyFile; rootCAFile].
Proof.
  intros s. pose proof (Inv_run w sched) as Hi. fold s in Hi.
  assert (Hnames : forall name data perm, WriteFile name data perm ∈ trace s ->
            name = permanentCertFile \/ name = permanentKeyFile).
  { intros name data perm Hin.
    pose proof (elem_of_writes _ _ Hin eq_refl) as Hw.
    destruct (writes_cases w s Hi) as [H|(r & _ & [H|H])]; rewrite H in Hw;
      unfold credential_writes in Hw;
      repeat (apply elem_of_cons in Hw as [Hw|Hw]);
      try (apply elem_of_nil in Hw; contradiction);
      injection Hw as -> -> ->; auto. }
  split; [exact Hnames|]. split; [discriminate|].
  repeat constructor; try discriminate.
  all: apply fs_after_frame; intros name data perm Hin;
       destruct (Hnames name data perm Hin) as [-> | ->]; discriminate.
Qed.


(** *** Resolving an exchange *)

Lemma register_failure_shape (s : state) (reason : string) :
  Inv w s -> stepB s = Some (Failure reason) ->
  (exists c, at_pc s = PRegisterError c reason) \/
  aborted_with ("Thing registration failed: " +:+ reason) s.
Proof.
  intros H. inv_cases H; intros E; try discriminate; injection E as <-.
  - left. eexists. reflexivity.
  - right. abort_tac.
Qed.

Lemma register_error_next (s : state) (reason : string) (coin : bool) :
  (exists c, at_pc s = PRegisterError c reason) \/
  aborted_with ("Thing registration failed: " +:+ reason) s ->
  aborted_with ("Thing registration failed: " +:+ reason) (step w s (EvMain coin)).
Proof.
  intros [[c E]|H]; [|apply aborted_step, H].
  simpl. unfold main_step. rewrite E. apply fatal_aborted.
Qed.






Lemma stepA_after (sched more : list sched_event) (ev : sched_event)
    (o : ExchangeOutcome CreateCertificateResponse) :
  stepA (step w (run w sched) ev) = Some o ->
  stepA (run w (sched ++ ev :: more)) = Some o.
Proof.
  intros E. rewrite run_cons. apply stepA_stable; [|exact E].
  apply Inv_step, Inv_run.
Qed.

Lemma stepB_after (sched more : list sched_event) (ev : sched_event)
    (o : ExchangeOutcome RegisterThingResponse) :
  stepB (step w (run w sched) ev) = Some o ->
  stepB (run w (sched ++ ev :: more)) = Some o.
Proof.
  intros E. rewrite run_cons. apply stepB_stable; [|exact E].
  apply Inv_step, Inv_run.
Qed.


Lemma malformed_while_waiting (s : state) (dl : N) (p : bytes) (d : string) :
  Inv w s -> at_pc s = PBlockedCreate dl ->
  json_Unmarshal_CreateCertificateResponse p = Err d ->
  stepA (step w s (EvDeliver topicCreateAccepted p)) =
  Some (Failure ("failed to unmarshal certificate response: " +:+ d)).
Proof.
  intros Hi E Hu. simpl.
  etransitivity; [apply (deliver_create_waiting w s dl OnCreateAccepted p Hi E); auto|].
  simpl. rewrite Hu. reflexivity.
Qed.

Lemma reject_while_waiting (s : state) (dl : N) (p : bytes) :
  Inv w s -> at_pc s = PBlockedCreate dl ->
  stepA (step w s (EvDeliver topicCreateRejected p)) =
  Some (Failure ("certificate creation rejected: " +:+ string_of_list_byte p)).
Proof.
  intros Hi E. simpl.
  etransitivity; [apply (deliver_create_waiting w s dl OnCreateRejected p Hi E); auto|].
  reflexivity.
Qed.


Lemma register_malformed_while_waiting (s : state) (dl : N)
    (c : CreateCertificateResponse) (p : bytes) (d : string) :
  Inv w s -> at_pc s = PBlockedRegister dl c -> blocked s = None ->
  json_Unmarshal_RegisterThingResponse p = Err d ->
  stepB (step w s (EvDeliver topicRegisterAccepted p)) =
  Some (Failure ("failed to unmarshal register thing response: " +:+ d)).
Proof.
  intros Hi E Hb Hu. simpl.
  etransitivity; [apply (deliver_register_waiting w s dl c OnRegisterAccepted p Hi E Hb); auto|].
  simpl. rewrite Hu. reflexivity.
Qed.



(** C4, as the code has it -- a malformed accepted payload fails the
    exchange.  For a payload that [json.Unmarshal] refuses with detail [d],
    the accept callback sends on the error channel, and never on the
    response channel, the error [failed to unmarshal certificate response:
    d] in Step A and [failed to unmarshal register thing response: d] in
    Step B.  Delivered while [main] waits in the [select] (in Step B with
    the delivery goroutine not parked), it makes the [select] take the
    error case with that text for good, and the next statement of [main]
    ends the process in [log.Fatal] with it.  A response case is only ever
    taken with the decoding of a delivered payload. *)
Theorem malformed_accept_fails_exchange (sched more : list sched_event)
    (p : bytes) (d : string) :
  let s := run w sched in
  (json_Unmarshal_CreateCertificateResponse p = Err d ->
   run_handler OnCreateAccepted p =
     SendCertError ("failed to unmarshal certificate response: " +:+ d) /\
   forall dl coin, at_pc s = PBlockedCreate dl ->
     let s' := run w (sched ++ EvDeliver topicCreateAccepted p :: more) in
     stepA s' = Some (Failure ("failed to unmarshal certificate response: " +:+ d)) /\
     aborted_with
       ("Certificate creation failed: failed to unmarshal certificate response: " +:+ d)
       (step w s' (EvMain coin))) /\
  (json_Unmarshal_RegisterThingResponse p = Err d ->
   run_handler OnRegisterAccepted p =
     SendRegisterError ("failed to unmarshal register thing response: " +:+ d) /\
   forall dl c coin, at_pc s = PBlockedRegister dl c -> blocked s = None ->
     let s' := run w (sched ++ EvDeliver topicRegisterAccepted p :: more) in
     stepB s' = Some (Failure ("failed to unmarshal register thing response: " +:+ d)) /\
     aborted_with
       ("Thing registration failed: failed to unmarshal register thing response: " +:+ d)
       (step w s' (EvMain coin))) /\
  (forall r, stepA s = Some (Success r) ->
     exists p', EvDeliver topicCreateAccepted p' ∈ sched /\
       json_Unmarshal_CreateCertificateResponse p' = Ok r) /\
  (forall r, stepB s = Some (Success r) ->
     exists p', EvDeliver topicRegisterAccepted p' ∈ sched /\
       json_Unmarshal_RegisterThingResponse p' = Ok r).
Proof.
  intros s. pose proof (Inv_run w sched) as Hi. fold s in Hi.
  split; [|split; [|split]].
  - intros Hu. split; [simpl; rewrite Hu; reflexivity|].
    intros dl coin E s'.
    assert (E' : stepA s' =
                 Some (Failure ("failed to unmarshal certificate response: " +:+ d))).
    { apply stepA_after. eapply malformed_while_waiting; eassumption. }
    split; [exact E'|].
    apply (cert_error_next s' ("failed to unmarshal certificate response: " +:+ d)).
    apply (failure_shape w s' _ (Inv_run w _) E').
  - intros Hu. split; [simpl; rewrite Hu; reflexivity|].
    intros dl c coin E Hb s'.
    assert (E' : stepB s' =
                 Some (Failure ("failed to unmarshal register thing response: " +:+ d))).
    { apply stepB_after. eapply register_malformed_while_waiting; eassumption. }
    split; [exact E'|].
    apply (register_error_next s' ("failed to unmarshal register thing response: " +:+ d)).
    apply (register_failure_shape s' _ (Inv_run w _) E').
  - intros r. apply accepted_provenance.
  - intros r. apply registered_provenance.
Qed.

Lemma append_empty_r (s : string) : s +:+ EmptyString = s.
Proof.
  induction s as [|c s IH]; [reflexivity|].
  change (String c (s +:+ EmptyString) = String c s). f_equal. exact IH.
Qed.

(** C8, as the code has it -- a rejection that Step A receives ends the
    run.  Whenever the first [select] takes the error case with the error
    of a reject delivery with payload [body], no file has been written, no
    call on a registration topic has been made, and the next statement of
    [main] ends the process in [log.Fatal] with a message that contains
    [body] byte for byte; and a reject delivered while [main] waits in the
    first [select] makes it take that case, whatever is delivered later. *)
Theorem rejection_aborts_issuance (sched more : list sched_event) (body : bytes)
    (coin : bool) :
  let detail := "certificate creation rejected: " +:+ string_of_list_byte body in
  (stepA (run w sched) = Some (Failure detail) ->
   (forall name data perm, WriteFile name data perm ∉ trace (run w sched)) /\
   (forall e, e ∈ trace (run w sched) -> registration_op e = false) /\
   aborted_with ("Certificate creation failed: " +:+ detail)
     (step w (run w sched) (EvMain coin)) /\
   substring_of (string_of_list_byte body) ("Certificate creation failed: " +:+ detail)) /\
  (forall dl, at_pc (run w sched) = PBlockedCreate dl ->
   stepA (run w (sched ++ EvDeliver topicCreateRejected body :: more)) =
   Some (Failure detail)).
Proof.
  intros detail. split.
  - intros E. pose proof (Inv_run w sched) as Hi.
    destruct (failure_shape w _ detail Hi E) as (H1 & H2 & H3).
    split; [|split; [|split]].
    + intros name data perm Hin.
      pose proof (elem_of_writes _ _ Hin eq_refl) as Hw.
      rewrite H2 in Hw. apply elem_of_nil in Hw. exact Hw.
    + apply no_registration_elem, H1.
    + apply cert_error_next, H3.
    + exists "Certificate creation failed: certificate creation rejected: ", EmptyString.
      unfold detail. rewrite append_empty_r. reflexivity.
  - intros dl E. apply stepA_after. eapply reject_while_waiting; [apply Inv_run|exact E].
Qed.

End Claims.

Lemma registration_only_after_issuance_witness :
  let s := run (codec := sample_codec) calm_world
             (mains 6 ++ [EvDeliver topicCreateRejected sample_rejection]) in
  stepA s = Some (Failure "certificate creation rejected: quota exceeded") /\
  (forall e, e ∈ trace s -> registration_op e = false) /\
  aborted_with "Certificate creation failed: certificate creation rejected: quota exceeded"
    (step (codec := sample_codec) calm_world s (EvMain false)).
Proof.
  split; [vm_compute; reflexivity|].
  apply (proj1 (proj2 (registration_only_after_issuance (codec := sample_codec)
                         calm_world _))
           "certificate creation rejected: quota exceeded" false).
  vm_compute. reflexivity.
Defined.



Lemma subscribe_before_publish_witness :
  let tr := trace (run (codec := sample_codec) calm_world sample_schedule) in
  (topicRegisterThing = topicCreateCertificate /\
   Subscribe topicCreateAccepted 1 ∈ take 18 tr /\
   Subscribe topicCreateRejected 1 ∈ take 18 tr) \/
  (topicRegisterThing = topicRegisterThing /\
   Subscribe topicRegisterAccepted 1 ∈ take 18 tr /\
   Subscribe topicRegisterRejected 1 ∈ take 18 tr).
Proof.
  intros tr.
  apply (proj1 (subscribe_before_publish (codec := sample_codec) calm_world
                  sample_schedule)
           (take 18 tr) (drop 19 tr) topicRegisterThing 1 false
           (marshalled (codec := sample_codec) (registerThingPayload sample_certResponse))).
  vm_compute. reflexivity.
Defined.




(** The truncated document [{] on the accept topic: the reason is the
    program's own wording, not [malformed accepted response: ...]. *)
Lemma malformed_reason_counterexample :
  let s := run (codec := sample_codec) calm_world
             (mains 6 ++ [EvDeliver topicCreateAccepted sample_truncated]) in
  json_Unmarshal_CreateCertificateResponse (Codec := sample_codec) sample_truncated =
    Err "unexpected end of JSON input" /\
  stepA s =
    Some (Failure "failed to unmarshal certificate response: unexpected end of JSON input") /\
  stepA s <>
    Some (Failure ("malformed accepted response: " +:+ "unexpected end of JSON input")).
Proof. vm_compute. repeat split. discriminate. Qed.

Lemma malformed_accept_fails_exchange_witness :
  let s' := run (codec := sample_codec) calm_world
              (mains 6 ++ EvDeliver topicCreateAccepted sample_truncated ::
               [EvDeliver topicCreateAccepted sample_issuance]) in
  stepA s' =
    Some (Failure ("failed to unmarshal certificate response: " +:+
                   "unexpected end of JSON input")) /\
  aborted_with
    ("Certificate creation failed: failed to unmarshal certificate response: " +:+
     "unexpected end of JSON input")
    (step (codec := sample_codec) calm_world s' (EvMain false)).
Proof.
  apply (proj2 (proj1 (malformed_accept_fails_exchange (codec := sample_codec)
           calm_world (mains 6) [EvDeliver topicCreateAccepted sample_issuance]
           sample_truncated "unexpected end of JSON input") eq_refl)
           (0 + waitBudget) false).
  vm_compute. reflexivity.
Defined.

(** A reject and then an accept are delivered during Step A, before [main]
    reaches the [select]; the [select] takes the response, both files are
    written and the run goes on. *)
Lemma rejection_counterexample :
  let s := run (codec := sample_codec) calm_world
             (mains 5 ++ [EvDeliver topicCreateRejected sample_rejection;
                          EvDeliver topicCreateAccepted sample_issuance] ++ mains 3) in
  stepA s = Some (Success sample_certResponse) /\
  writes (trace s) = credential_writes sample_certResponse /\
  at_pc s = PSubscribeRegisterAccepted sample_certResponse.
Proof. vm_compute. repeat split. Qed.

Lemma rejection_aborts_issuance_witness :
  let s := run (codec := sample_codec) calm_world
             (mains 6 ++ [EvDeliver topicCreateRejected sample_rejection]) in
  (forall name data perm, WriteFile name data perm ∉ trace s) /\
  (forall e, e ∈ trace s -> registration_op e = false) /\
  aborted_with
    ("Certificate creation failed: " +:+ "certificate creation rejected: " +:+
     string_of_list_byte sample_rejection)
    (step (codec := sample_codec) calm_world s (EvMain false)) /\
  substring_of (string_of_list_byte sample_rejection)
    ("Certificate creation failed: " +:+ "certificate creation rejected: " +:+
     string_of_list_byte sample_rejection).
Proof.
  apply (proj1 (rejection_aborts_issuance (codec := sample_codec) calm_world
           (mains 6 ++ [EvDeliver topicCreateRejected sample_rejection]) []
           sample_rejection false)).
  vm_compute. reflexivity.
Defined.

Lemma topic_contract_witness :
  topicRegisterThing = topicCreateCertificate \/ topicRegisterThing = topicRegisterThing.
Proof.
  apply (proj1 (proj2 (proj2 (proj2 (proj2 (proj2 (proj2
           (topic_contract (codec := sample_codec) calm_world sample_schedule)))))))
           topicRegisterThing 1 false
           (marshalled (codec := sample_codec) (registerThingPayload sample_certResponse))).
  apply list_elem_of_In. vm_compute. tauto.
Defined.

Lemma claim_credentials_untouched_witness :
  permanentKeyFile = permanentCertFile \/ permanentKeyFile = permanentKeyFile.
Proof.
  apply (proj1 (claim_credentials_untouched (codec := sample_codec) calm_world
                  sample_schedule ∅)
           permanentKeyFile (list_byte_of_string "KEYDATA") perm_0600).
  apply list_elem_of_In. vm_compute. tauto.
Defined.

(** The end-to-end scenario runs to completion: both files hold the issued
    material, the registration request carries the token and the serial
    number, and the thing name is reported. *)
Example sample_run_completes :
  let s := run (codec := sample_codec) calm_world (sample_schedule ++ mains 1) in
  at_pc s = PExited 0 /\
  stepB s = Some (Success sample_registerResponse) /\
  fs_after (trace s) ∅ !! permanentCertFile = Some (list_byte_of_string "CERTDATA") /\
  fs_after (trace s) ∅ !! permanentKeyFile = Some (list_byte_of_string "KEYDATA") /\
  Log "Successfully registered thing: thing-1" ∈ trace s /\
  Disconnect 250 ∈ trace s.
Proof.
  vm_compute. repeat split; apply list_elem_of_In; simpl; tauto.
Qed.

(** The same issuance with its members in another order gives the same
    calls. *)
Example sample_run_reordered :
  trace (run (codec := sample_codec) calm_world
           (mains 6 ++ [EvDeliver topicCreateAccepted sample_issuance_reordered] ++ mains 6)) =
  trace (run (codec := sample_codec) calm_world
           (mains 6 ++ [EvDeliver topicCreateAccepted sample_issuance] ++ mains 6)).
Proof. vm_compute. reflexivity. Qed.

(** With the certificate file not writable the run stops before Step B. *)
Example sample_run_readonly :
  let s := run (codec := sample_codec) readonly_world
             (mains 6 ++ [EvDeliver topicCreateAccepted sample_issuance] ++ mains 6) in
  aborted_with
    "Failed to write permanent certificate to file: open permanent_cert.pem: permission denied"
    s /\
  existsb registration_op (trace s) = false.
Proof.
  split; [split; [vm_compute; reflexivity|]|vm_compute; reflexivity].
  apply ends_fatal_split. vm_compute. reflexivity.
Qed.


(** ** Starting up and leaving *)

Lemma preceded_from_split (trigger need : event -> bool)
    (tr before pre post : list event) (e : event) :
  preceded_from trigger need before tr = true ->
  tr = pre ++ e :: post -> trigger e = true ->
  exists x, x ∈ before ++ pre /\ need x = true.
Proof.
  revert before pre. induction tr as [|e0 tr IH]; intros before pre H E Ht.
  - destruct pre; discriminate.
  - simpl in H. apply andb_true_iff in H as [He Htr].
    destruct pre as [|e' pre]; simpl in E; injection E as -> ->.
    + rewrite Ht in He. apply existsb_exists in He as (x & Hin & Hx).
      exists x. rewrite app_nil_r. split; [apply list_elem_of_In, Hin | exact Hx].
    + destruct (IH (before ++ [e']) pre Htr eq_refl Ht) as (x & Hin & Hx).
      exists x. rewrite <- app_assoc in Hin. auto.
Qed.

Ltac unfold_traces :=
  unfold tr_publishedRegister, tr_subscribedRegister, tr_subscribedRegisterAccepted,
    tr_keyWritten, tr_certWritten, tr_publishedCreate, tr_subscribedCreate,
    tr_subscribedCreateAccepted, tr_connected in *.

Ltac elem_cases Hin :=
  apply list_elem_of_In in Hin; unfold_traces; simpl in Hin;
  repeat match type of Hin with
  | _ \/ _ => destruct Hin as [Hin|Hin]
  | False => contradiction
  | _ = _ => first [discriminate Hin | simplify_eq]
  end.

Ltac world_contra :=
  exfalso;
  unfold world_ok, publishedRegister_ok, marshalledRegister_ok, keyWritten_ok,
    certWritten_ok, publishedCreate_ok, marshalledCreate_ok, connected_ok,
    createMQTTClient in *;
  simpl in *;
  repeat match goal with
  | H : _ /\ _ |- _ => destruct H
  end;
  repeat match goal with
  | H : ?x = None |- _ => rewrite H in *
  end;
  congruence.
Lemma ends_two_split {A} (l l' : list A) (a b : A) :
  rev l = b :: a :: l' -> l = rev l' ++ [a; b].
Proof.
  intros E. rewrite <- (rev_involutive l), E. simpl. rewrite <- app_assoc. reflexivity.
Qed.

Section Startup.
Context {codec : Codec} (w : World).

(** *** Starting up *)

Lemma startup_order (s : state) :
  Inv w s ->
  preceded_from is_network is_connect [] (trace s) = true /\
  preceded_from is_connect is_load_claim [] (trace s) = true /\
  preceded_from is_connect is_read_rootCA [] (trace s) = true /\
  preceded_from is_write is_publish_create [] (trace s) = true.
Proof. intros H. inv_cases H; repeat split; reflexivity. Qed.


Lemma startup_calls (s : state) :
  Inv w s ->
  (forall cf kf, LoadX509KeyPair cf kf ∈ trace s ->
     cf = certificateFile /\ kf = privateKeyFile) /\
  (forall name, ReadFile name ∈ trace s ->
     name = rootCAFile /\ LoadX509KeyPair_error w = None) /\
  (forall b c, Connect b c ∈ trace s ->
     b = "ssl://" +:+ AWSIoTEndpoint +:+ ":8883" /\ c = "device-" +:+ serialNumber /\
     LoadX509KeyPair_error w = None /\ ReadFile_error w = None).
Proof.
  intros H. inv_cases H.
  all: repeat split; intros; (match goal with Hin : _ ∈ _ |- _ => elem_cases Hin end);
    try reflexivity; solve [live_tac].
Qed.

Lemma client_failure_shape (s : state) (calls : list event) (err : string) :
  Inv w s ->
  createMQTTClient w certificateFile privateKeyFile rootCAFile = (calls, Some err) ->
  existsb is_network (trace s) = false /\ writes (trace s) = [] /\ stepA s = None /\
  (at_pc s = PStart \/ aborted_with ("Failed to create MQTT client: " +:+ err) s).
Proof.
  intros H. inv_cases H; intros E.
  all: try solve [world_contra].
  all: try (injection E as <- <-).
  all: try solve [repeat split; try reflexivity; first [left; reflexivity | right; abort_tac]].
Qed.

(** X1 -- a failure of [createMQTTClient] ends the run at once.  The key
    pair is loaded first, the root CA is read only if that worked, and the
    client connects only if both worked; the error that is returned wraps
    the first failure.  When [createMQTTClient] fails, no run subscribes,
    publishes or writes a file, the first [select] is never reached, and the
    first statement of [main] ends the process in [log.Fatal] with [Failed
    to create MQTT client:] followed by that error. *)
Theorem client_creation_failure (sched : list sched_event) :
  let s := run w sched in
  (forall calls err coin,
     createMQTTClient w certificateFile privateKeyFile rootCAFile = (calls, Some err) ->
     (forall e, e ∈ trace s -> is_network e = false /\ is_write e = false) /\
     stepA s = None /\
     aborted_with ("Failed to create MQTT client: " +:+ err)
       (run w (sched ++ [EvMain coin]))) /\
  (forall e, LoadX509KeyPair_error w = Some e ->
     createMQTTClient w certificateFile privateKeyFile rootCAFile =
       ([LoadX509KeyPair certificateFile privateKeyFile],
        Some ("failed to load certificates: " +:+ e))) /\
  (forall e, LoadX509KeyPair_error w = None -> ReadFile_error w = Some e ->
     createMQTTClient w certificateFile privateKeyFile rootCAFile =
       ([LoadX509KeyPair certificateFile privateKeyFile; ReadFile rootCAFile],
        Some ("failed to load root CA: " +:+ e))) /\
  (forall e, LoadX509KeyPair_error w = None -> ReadFile_error w = None ->
     Connect_error w = Some e ->
     snd (createMQTTClient w certificateFile privateKeyFile rootCAFile) =
       Some ("failed to connect: " +:+ e)) /\
  (forall name, ReadFile name ∈ trace s ->
     name = rootCAFile /\ LoadX509KeyPair_error w = None) /\
  (forall b c, Connect b c ∈ trace s ->
     LoadX509KeyPair_error w = None /\ ReadFile_error w = None).
Proof.
  intros s. pose proof (Inv_run w sched) as Hi. fold s in Hi.
  split; [|split; [|split; [|split; [|split]]]].
  - intros calls err coin E.
    destruct (client_failure_shape s calls err Hi E) as (H1 & H2 & H3 & H4).
    split; [|split; [exact H3|]].
    + intros e Hin. split; [apply (existsb_false_elem _ _ H1 e Hin)|].
      destruct (is_write e) eqn:Ew; [|reflexivity].
      pose proof (elem_of_writes e _ Hin Ew) as Hw. rewrite H2 in Hw.
      apply elem_of_nil in Hw. contradiction.
    + unfold run. rewrite exec_snoc. fold (run w sched). fold s.
      destruct H4 as [Hp|Ha]; [|apply aborted_step, Ha].
      simpl. unfold main_step. rewrite Hp, E. apply fatal_aborted.
  - intros e E. unfold createMQTTClient. rewrite E. reflexivity.
  - intros e E1 E2. unfold createMQTTClient. rewrite E1, E2. reflexivity.
  - intros e E1 E2 E3. unfold createMQTTClient. rewrite E1, E2, E3. reflexivity.
  - apply (startup_calls s Hi).
  - intros b c Hin. apply (startup_calls s Hi) in Hin. tauto.
Qed.

(** X2 -- nothing is sent before the client is connected with the claim
    credentials.  In every run, a publish or subscribe stands in the trace
    only after the connect to [ssl://<endpoint>:8883] under the client
    identifier [device-<serial number>]; the connect stands only after the
    claim key pair was loaded from the configured certificate and key files
    and the root CA file was read; and a file is written only after the
    certificate request was published. *)
Theorem connect_before_traffic (sched : list sched_event)
    (pre post : list event) (e : event) :
  trace (run w sched) = pre ++ e :: post ->
  (is_network e = true ->
   Connect ("ssl://" +:+ AWSIoTEndpoint +:+ ":8883") ("device-" +:+ serialNumber) ∈ pre) /\
  (forall b c, e = Connect b c ->
   b = "ssl://" +:+ AWSIoTEndpoint +:+ ":8883" /\ c = "device-" +:+ serialNumber /\
   LoadX509KeyPair certificateFile privateKeyFile ∈ pre /\ ReadFile rootCAFile ∈ pre) /\
  (is_write e = true -> exists q ret payload,
   Publish topicCreateCertificate q ret payload ∈ pre).
Proof.
  intros E. pose proof (Inv_run w sched) as Hi.
  destruct (startup_order _ Hi) as (H1 & H2 & H3 & H4).
  split; [|split].
  - intros He.
    destruct (preceded_from_split _ _ _ [] pre post e H1 E He) as (x & Hin & Hx).
    destruct x; try discriminate. simpl in Hx.
    apply andb_true_iff in Hx as [Hb Hc].
    apply String.eqb_eq in Hb, Hc. subst. exact Hin.
  - intros b c ->.
    assert (Hin : Connect b c ∈ trace (run w sched)).
    { rewrite E. apply elem_of_app. right. left. }
    destruct (proj2 (proj2 (startup_calls _ Hi)) b c Hin) as (-> & -> & _).
    split; [reflexivity|]. split; [reflexivity|].
    split.
    + destruct (preceded_from_split _ _ _ [] pre post _ H2 E eq_refl) as (x & Hx & Hn).
      destruct x; try discriminate. simpl in Hn.
      apply andb_true_iff in Hn as [Hb Hc].
      apply String.eqb_eq in Hb, Hc. subst. exact Hx.
    + destruct (preceded_from_split _ _ _ [] pre post _ H3 E eq_refl) as (x & Hx & Hn).
      destruct x; try discriminate. simpl in Hn.
      apply String.eqb_eq in Hn. subst. exact Hx.
  - intros He.
    destruct (preceded_from_split _ _ _ [] pre post e H4 E He) as (x & Hin & Hx).
    destruct x; try discriminate. simpl in Hx. apply String.eqb_eq in Hx. subst.
    eauto.
Qed.


(** *** Leaving the program *)

Lemma exit_shape (s : state) :
  Inv w s ->
  match at_pc s with
  | PExited c =>
      (c = 0 /\
       (exists tr, trace s =
          tr ++ [Log "Device provisioning test complete"; Disconnect 250]) /\
       (forall c', Exit c' ∉ trace s)) \/
      (c = 1 /\ (exists msg tr, trace s = tr ++ [Log msg; Exit 1]) /\
       (forall q, Disconnect q ∉ trace s))
  | _ => (forall q, Disconnect q ∉ trace s) /\ (forall c, Exit c ∉ trace s)
  end.
Proof.
  intros H. inv_cases H.
  all: try (split; intros ? Hin; elem_cases Hin).
  all: try (right; split; [reflexivity|]; split;
            [eexists; apply ends_fatal_split; lazy; reflexivity
            |intros ? Hin; elem_cases Hin]).
  left. split; [reflexivity|]. split.
  - eexists. apply ends_two_split. simpl. reflexivity.
  - intros ? Hin; elem_cases Hin.
Qed.

(** X3 -- how the process ends.  In every run the exit status is 0 or 1.
    Status 1 is always the end of a [log.Fatal]: the trace ends with the
    message and the exit, and the deferred [Disconnect] has not run.  Status
    0 is the return of [main]: the trace ends with the completion message
    and [Disconnect(250)].  So the client is disconnected exactly when the
    run succeeded. *)
Theorem exit_discipline (sched : list sched_event) :
  let s := run w sched in
  (forall c, at_pc s = PExited c -> c = 0 \/ c = 1) /\
  (at_pc s = PExited 1 ->
   (exists msg tr, trace s = tr ++ [Log msg; Exit 1]) /\
   forall q, Disconnect q ∉ trace s) /\
  (at_pc s = PExited 0 ->
   (exists tr, trace s = tr ++ [Log "Device provisioning test complete"; Disconnect 250]) /\
   forall c, Exit c ∉ trace s) /\
  (forall q, Disconnect q ∈ trace s -> at_pc s = PExited 0) /\
  (forall c, Exit c ∈ trace s -> at_pc s = PExited 1).
Proof.
  intros s. pose proof (exit_shape s (Inv_run w sched)) as H.
  destruct (at_pc s) eqn:E;
    try (destruct H as [H1 H2]; repeat split; intros;
         first [discriminate
               | exfalso; eapply H1; eassumption
               | exfalso; eapply H2; eassumption]).
  destruct H as [(-> & H1 & H2)|(-> & H1 & H2)].
  - split; [intros c [= <-]; auto|]. split; [discriminate|].
    split; [auto|]. split; [reflexivity|]. intros c Hin. destruct (H2 c Hin).
  - split; [intros c [= <-]; auto|]. split; [auto|].
    split; [discriminate|]. split; [|reflexivity]. intros q Hin. destruct (H2 q Hin).
Qed.

Lemma success_exit_shape (s : state) :
  Inv w s -> at_pc s = PExited 0 ->
  exists r r', stepA s = Some (Success r) /\ stepB s = Some (Success r') /\
    writes (trace s) = credential_writes r /\
    Log ("Successfully registered thing: " +:+ ThingName r') ∈ trace s /\
    Log ("Device configuration: " +:+ fmt_plus_v (DeviceConfiguration r')) ∈ trace s /\
    keyWritten_ok w /\ Publish_error w topicRegisterThing = None.
Proof.
  intros H. inv_cases H; intros E; try discriminate.
  eexists _, _. split; [reflexivity|]. split; [reflexivity|]. split; [reflexivity|].
  split; [|split; [|split]].
  - apply list_elem_of_In. unfold_traces. simpl. tauto.
  - apply list_elem_of_In. unfold_traces. simpl. tauto.
  - live_tac.
  - live_tac.
Qed.

(** X4 -- what a successful run has done.  A run ends with status 0 only
    if both exchanges took the response case: both credential files were
    written from the accepted issuance, no call failed, and the thing name
    and device configuration that are logged are those of a registration
    response decoded from a payload delivered on the registration accept
    topic. *)
Theorem success_means_registered (sched : list sched_event) :
  let s := run w sched in
  at_pc s = PExited 0 ->
  exists r r' p p',
    stepA s = Some (Success r) /\ stepB s = Some (Success r') /\
    EvDeliver topicCreateAccepted p ∈ sched /\
    json_Unmarshal_CreateCertificateResponse p = Ok r /\
    EvDeliver topicRegisterAccepted p' ∈ sched /\
    json_Unmarshal_RegisterThingResponse p' = Ok r' /\
    writes (trace s) = credential_writes r /\
    Log ("Successfully registered thing: " +:+ ThingName r') ∈ trace s /\
    Log ("Device configuration: " +:+ fmt_plus_v (DeviceConfiguration r')) ∈ trace s /\
    WriteFile_error w permanentCertFile = None /\
    WriteFile_error w permanentKeyFile = None /\
    Publish_error w topicCreateCertificate = None /\
    Publish_error w topicRegisterThing = None.
Proof.
  intros s E. pose proof (Inv_run w sched) as Hi. fold s in Hi.
  destruct (success_exit_shape s Hi E) as (r & r' & HA & HB & Hw & H1 & H2 & Hk & Hp).
  destruct (accepted_provenance w sched r HA) as (p & Hp1 & Hp2).
  destruct (registered_provenance w sched r' HB) as (p' & Hq1 & Hq2).
  exists r, r', p, p'.
  destruct Hk as [[[_ Hc] Hcw] Hkw]. repeat split; assumption.
Qed.

End Startup.


(** ** Failures of the second exchange and of publishing *)

Section Failures.
Context {codec : Codec} (w : World).

(** *** The second exchange *)

Lemma register_timeout_shape (s : state) :
  Inv w s -> stepB s = Some TimedOut ->
  (exists c, at_pc s = PRegisterTimeout c) \/
  aborted_with "Timeout waiting for thing registration response" s.
Proof.
  intros H. inv_cases H; intros E; try discriminate.
  - left. eexists. reflexivity.
  - right. abort_tac.
Qed.

Lemma register_resolved_shape (s : state) (o : ExchangeOutcome RegisterThingResponse) :
  Inv w s -> stepB s = Some o ->
  exists r, stepA s = Some (Success r) /\ writes (trace s) = credential_writes r /\
    keyWritten_ok w /\ Publish_error w topicRegisterThing = None.
Proof.
  intros H. inv_cases H; intros E; try discriminate.
  all: eexists; split; [reflexivity|]; split; [reflexivity|]; split; solve [live_tac].
Qed.

Lemma writes_complete_exec (more : list sched_event) (s : state)
    (r : CreateCertificateResponse) :
  Inv w s -> stepA s = Some (Success r) ->
  writes (trace s) = credential_writes r ->
  writes (trace (exec w more s)) = credential_writes r.
Proof.
  revert s. induction more as [|ev more IH]; intros s Hi E Hw; [exact Hw|].
  apply (IH (step w s ev)).
  - apply Inv_step, Hi.
  - apply (stepA_stable w [ev] s _ Hi E).
  - apply (writes_complete_step w); assumption.
Qed.

(** X5 -- a failed registration ends the run and leaves the new
    credentials on disk.  When the second [select] takes the error case or
    times out, the next statement of [main] ends the process in [log.Fatal]
    with [Thing registration failed:] and the reason, or with the timeout
    message; by then both credential files have been written from the
    accepted issuance, and nothing the program does afterwards writes them
    again or removes them. *)
Theorem registration_failure_keeps_credentials (sched more : list sched_event)
    (coin : bool) :
  let s := run w sched in
  (forall reason, stepB s = Some (Failure reason) ->
     aborted_with ("Thing registration failed: " +:+ reason) (step w s (EvMain coin))) /\
  (stepB s = Some TimedOut ->
     aborted_with "Timeout waiting for thing registration response"
       (step w s (EvMain coin))) /\
  (forall o, stepB s = Some o ->
     exists r, stepA s = Some (Success r) /\
       writes (trace s) = credential_writes r /\
       writes (trace (run w (sched ++ more))) = credential_writes r).
Proof.
  intros s. pose proof (Inv_run w sched) as Hi. fold s in Hi.
  split; [|split].
  - intros reason E. apply (register_error_next w), (register_failure_shape w); assumption.
  - intros E. destruct (register_timeout_shape s Hi E) as [[c Hp]|Ha].
    + simpl. unfold main_step. rewrite Hp. apply fatal_aborted.
    + apply aborted_step, Ha.
  - intros o E. destruct (register_resolved_shape s o Hi E) as (r & HA & Hw & _).
    exists r. split; [exact HA|]. split; [exact Hw|].
    rewrite run_app. apply writes_complete_exec; assumption.
Qed.

(** *** Where a failure comes from *)

Lemma sent_cert_error (sched : list sched_event) (e : string) :
  sent_in sched (SendCertError e) ->
  (exists p, EvDeliver topicCreateRejected p ∈ sched /\
     e = "certificate creation rejected: " +:+ string_of_list_byte p) \/
  (exists p d, EvDeliver topicCreateAccepted p ∈ sched /\
     json_Unmarshal_CreateCertificateResponse p = Err d /\
     e = "failed to unmarshal certificate response: " +:+ d).
Proof.
  intros (h & p & Hin & Hm). destruct h; simpl in Hm.
  - right. destruct (json_Unmarshal_CreateCertificateResponse p) eqn:E; [discriminate|].
    injection Hm as <-. eauto.
  - left. injection Hm as <-. eauto.
  - destruct (json_Unmarshal_RegisterThingResponse p); discriminate.
  - discriminate.
Qed.

Lemma sent_register_error (sched : list sched_event) (e : string) :
  sent_in sched (SendRegisterError e) ->
  (exists p, EvDeliver topicRegisterRejected p ∈ sched /\
     e = "thing registration rejected: " +:+ string_of_list_byte p) \/
  (exists p d, EvDeliver topicRegisterAccepted p ∈ sched /\
     json_Unmarshal_RegisterThingResponse p = Err d /\
     e = "failed to unmarshal register thing response: " +:+ d).
Proof.
  intros (h & p & Hin & Hm). destruct h; simpl in Hm.
  - destruct (json_Unmarshal_CreateCertificateResponse p); discriminate.
  - discriminate.
  - right. destruct (json_Unmarshal_RegisterThingResponse p) eqn:E; [discriminate|].
    injection Hm as <-. eauto.
  - left. injection Hm as <-. eauto.
Qed.

(** X6 -- every failure reason is attributable.  In every run, the reason
    with which the first [select] takes the error case is either
    [certificate creation rejected:] followed by the payload of a message
    delivered on the reject topic, or [failed to unmarshal certificate
    response:] followed by the decoding error of a message delivered on the
    accept topic; likewise for the second [select] and the registration
    topics. *)
Theorem failure_reasons_attributable (sched : list sched_event) :
  let s := run w sched in
  (forall e, stepA s = Some (Failure e) ->
     (exists p, EvDeliver topicCreateRejected p ∈ sched /\
        e = "certificate creation rejected: " +:+ string_of_list_byte p) \/
     (exists p d, EvDeliver topicCreateAccepted p ∈ sched /\
        json_Unmarshal_CreateCertificateResponse p = Err d /\
        e = "failed to unmarshal certificate response: " +:+ d)) /\
  (forall e, stepB s = Some (Failure e) ->
     (exists p, EvDeliver topicRegisterRejected p ∈ sched /\
        e = "thing registration rejected: " +:+ string_of_list_byte p) \/
     (exists p d, EvDeliver topicRegisterAccepted p ∈ sched /\
        json_Unmarshal_RegisterThingResponse p = Err d /\
        e = "failed to unmarshal register thing response: " +:+ d)).
Proof.
  intros s. split; intros e E.
  - apply sent_cert_error. apply (proj2 (provenance_run w sched)). right. right. exact E.
  - apply sent_register_error. apply (proj2 (provenance_run w sched)). right. right.
    exact E.
Qed.

(** *** A publish that is not acknowledged *)

Lemma publish_create_failure_shape (s : state) (e : string) :
  Inv w s -> Publish_error w topicCreateCertificate = Some e ->
  stepA s = None /\ writes (trace s) = [] /\
  existsb registration_op (trace s) = false.
Proof.
  intros H. inv_cases H; intros E.
  all: try solve [world_contra].
  all: repeat split; reflexivity.
Qed.

Lemma publish_register_failure_shape (s : state) (e : string) :
  Inv w s -> Publish_error w topicRegisterThing = Some e ->
  stepB s = None /\ at_pc s <> PExited 0 /\
  forall c, at_pc s <> PSelectRegister c.
Proof.
  intros H. inv_cases H; intros E.
  all: try solve [world_contra].
  all: repeat split; try reflexivity; intros; discriminate.
Qed.

(** X7 -- a publish that is not acknowledged ends the run without waiting.
    If the acknowledgement of the certificate request fails, no run ever
    reaches the first [select]: no outcome is taken whatever is delivered,
    no file is written, no registration call is made, and the statement
    after the publish ends the process in [log.Fatal].  If the
    acknowledgement of the registration request fails, no run ever reaches
    the second [select] or ends with status 0, and the statement after that
    publish ends the process in [log.Fatal]. *)
Theorem unacknowledged_publish_aborts (sched : list sched_event) (e : string)
    (coin : bool) :
  let s := run w sched in
  (Publish_error w topicCreateCertificate = Some e ->
   stepA s = None /\ writes (trace s) = [] /\
   (forall x, x ∈ trace s -> registration_op x = false) /\
   (at_pc s = PWaitCreate ->
    aborted_with ("Failed to publish create certificate request: " +:+ e)
      (step w s (EvMain coin)))) /\
  (Publish_error w topicRegisterThing = Some e ->
   stepB s = None /\ at_pc s <> PExited 0 /\
   (forall c, at_pc s = PWaitRegister c ->
    aborted_with ("Failed to publish register thing request: " +:+ e)
      (step w s (EvMain coin)))).
Proof.
  intros s. pose proof (Inv_run w sched) as Hi. fold s in Hi. split; intros E.
  - destruct (publish_create_failure_shape s e Hi E) as (H1 & H2 & H3).
    split; [exact H1|]. split; [exact H2|]. split; [apply (no_registration_elem _ H3)|].
    intros Hp. simpl. unfold main_step. rewrite Hp, E. apply fatal_aborted.
  - destruct (publish_register_failure_shape s e Hi E) as (H1 & H2 & _).
    split; [exact H1|]. split; [exact H2|].
    intros c Hp. simpl. unfold main_step. rewrite Hp, E. apply fatal_aborted.
Qed.

End Failures.


(** ** Calls on the transport *)

Section Transport.
Context {codec : Codec} (w : World).

(** *** One request, one subscription *)

Lemma transport_calls_NoDup (s : state) :
  Inv w s -> NoDup (transport_calls (trace s)).
Proof.
  intros H. inv_cases H.
  all: unfold_traces; unfold transport_calls; simpl.
  all: repeat (apply NoDup_cons; split;
               [intros Hin;
                repeat (apply elem_of_cons in Hin as [Hin|Hin]; [discriminate Hin|]);
                apply elem_of_nil in Hin; exact Hin|]).
  all: apply NoDup_nil; exact I.
Qed.

Lemma qos_run (s : state) :
  Inv w s ->
  (forall t q, Subscribe t q ∈ trace s -> q = 1) /\
  (forall t q ret payload, Publish t q ret payload ∈ trace s -> q = 1 /\ ret = false).
Proof.
  intros H. inv_cases H.
  all: split; intros; (match goal with Hin : _ ∈ _ |- _ => elem_cases Hin end);
       auto.
Qed.


(** X8 -- no retries.  In every run each of the two requests is published
    at most once and each of the four response topics is subscribed at most
    once, always at quality level 1 and never retained; and the certificate
    file is written at most once, the key file at most once and only after
    it. *)
Theorem no_retries (sched : list sched_event) :
  let s := run w sched in
  NoDup (transport_calls (trace s)) /\
  (forall t q, Subscribe t q ∈ trace s -> q = 1) /\
  (forall t q ret payload, Publish t q ret payload ∈ trace s -> q = 1 /\ ret = false) /\
  (writes (trace s) = [] \/
   exists r,
     writes (trace s) =
       [WriteFile permanentCertFile (list_byte_of_string (CertificatePem r)) perm_0644] \/
     writes (trace s) = credential_writes r).
Proof.
  intros s. pose proof (Inv_run w sched) as Hi. fold s in Hi.
  split; [apply transport_calls_NoDup, Hi|].
  split; [apply (qos_run s Hi)|]. split; [apply (qos_run s Hi)|].
  destruct (writes_cases w s Hi) as [H|(r & _ & H)]; eauto.
Qed.

(** *** Deliveries and subscriptions *)

Lemma route_subscribed (s : state) (t : string) (h : handler) :
  Inv w s -> ~ exited s -> (t, h) ∈ routes s -> Subscribe t 1 ∈ trace s.
Proof.
  intros [H|(s0 & coin & _ & _ & Hx)] Hn; [|contradiction]. clear Hn.
  open_live H s; intros Hin; apply list_elem_of_In in Hin; simpl in Hin.
  all: repeat match type of Hin with
       | _ \/ _ => destruct Hin as [Hin|Hin]
       | False => contradiction
       end.
  all: injection Hin as <- <-; apply list_elem_of_In; unfold_traces; simpl; tauto.
Qed.

(** X9 -- a message on a topic that is not subscribed is dropped.  In every
    run, a delivery on a topic for which [main] has not executed the
    [Subscribe] statement leaves the whole state as it is: a response that
    arrives before its subscription, or on any other topic, is lost. *)
Theorem unsubscribed_delivery_dropped (sched : list sched_event) (t : string)
    (p : bytes) :
  (forall q, Subscribe t q ∉ trace (run w sched)) ->
  step w (run w sched) (EvDeliver t p) = run w sched.
Proof.
  intros Hs. pose proof (Inv_run w sched) as Hi.
  destruct (run w sched) as [q clk ro bl c1 c2 c3 c4 a b tr] eqn:E.
  simpl. unfold deliver. cbn [at_pc blocked routes].
  destruct q; try reflexivity.
  all: destruct bl; try reflexivity.
  all: destruct (matchRoute t ro) as [h|] eqn:Hm; try reflexivity.
  all: exfalso; apply (Hs 1).
  all: apply matchRoute_In, list_elem_of_In in Hm.
  all: apply (route_subscribed _ t h Hi); [intros Hx; exact Hx | exact Hm].
Qed.

Lemma deliver_attribution (s : state) (t : string) (p : bytes) :
  Inv w s ->
  (stepA (deliver t p s) = stepA s \/ t = topicCreateAccepted \/ t = topicCreateRejected) /\
  (stepB (deliver t p s) = stepB s \/
   t = topicRegisterAccepted \/ t = topicRegisterRejected).
Proof.
  intros [H|(s0 & coin & _ & -> & Hx)].
  2: { change (deliver t p (main_step w coin s0))
         with (step w (main_step w coin s0) (EvDeliver t p)).
       rewrite step_exited by exact Hx. auto. }
  open_live H s.
  all: unfold deliver; cbn [at_pc blocked routes].
  all: destruct bl; [auto|].
  all: match goal with
       | |- context [matchRoute ?t ?r] =>
           destruct (matchRoute t r) as [h|] eqn:Hm; [|auto]
       end.
  all: route_cases Hm; try solve [auto 6].
  all: unfold run_handler, chan_send; case_matches; try discriminate; auto 6.
Qed.

(** X12 -- responses are attributed by topic.  In every run, a delivery can
    change the case taken by the first [select] only if it is on the accept
    or reject topic of certificate creation, and the case taken by the
    second [select] only if it is on the accept or reject topic of
    registration; a delivery never adds a call to the trace. *)
Theorem responses_attributed_by_topic (sched : list sched_event) (t : string)
    (p : bytes) :
  let s := run w sched in
  (stepA (step w s (EvDeliver t p)) <> stepA s ->
   t = topicCreateAccepted \/ t = topicCreateRejected) /\
  (stepB (step w s (EvDeliver t p)) <> stepB s ->
   t = topicRegisterAccepted \/ t = topicRegisterRejected) /\
  trace (step w s (EvDeliver t p)) = trace s.
Proof.
  intros s. destruct (deliver_attribution s t p (Inv_run w sched)) as [HA HB].
  split; [|split].
  - intros Hn. destruct HA as [HA|HA]; [destruct (Hn HA) | exact HA].
  - intros Hn. destruct HB as [HB|HB]; [destruct (Hn HB) | exact HB].
  - apply trace_deliver.
Qed.

End Transport.


(** ** The handshake as a whole *)

Lemma addRoute_createAccepted :
  addRoute topicCreateAccepted OnCreateAccepted [] = routes_createAccepted.
Proof. vm_compute. reflexivity. Qed.

Lemma addRoute_createRejected :
  addRoute topicCreateRejected OnCreateRejected routes_createAccepted = routes_create.
Proof. vm_compute. reflexivity. Qed.

Lemma addRoute_registerAccepted :
  addRoute topicRegisterAccepted OnRegisterAccepted routes_create =
  routes_registerAccepted.
Proof. vm_compute. reflexivity. Qed.

Lemma addRoute_registerRejected :
  addRoute topicRegisterRejected OnRegisterRejected routes_registerAccepted =
  routes_register.
Proof. vm_compute. reflexivity. Qed.

Lemma matchRoute_createAccepted :
  matchRoute topicCreateAccepted routes_create = Some OnCreateAccepted.
Proof. vm_compute. reflexivity. Qed.

Lemma matchRoute_registerAccepted :
  matchRoute topicRegisterAccepted routes_register = Some OnRegisterAccepted.
Proof. vm_compute. reflexivity. Qed.

Lemma exec_cons {codec : Codec} (w : World) (ev : sched_event)
    (rest : list sched_event) (s : state) :
  exec w (ev :: rest) s = exec w rest (step w s ev).
Proof. reflexivity. Qed.

Ltac state_simpl :=
  cbn [at_pc clock routes blocked certResponseChan certErrorChan registerResponseChan
       registerErrorChan stepA stepB trace goto emit set_clock set_routes set_blocked
       set_certResponseChan set_certErrorChan set_registerResponseChan
       set_registerErrorChan resolveA resolveB fatal recv_certResponse recv_certError
       recv_registerResponse recv_registerError].

(** One statement of [main], on a state whose current statement is known. *)
Ltac advance rw :=
  rewrite exec_cons;
  unfold step, main_step, createMQTTClient;
  state_simpl; rw; state_simpl;
  rewrite ?addRoute_createAccepted, ?addRoute_createRejected,
    ?addRoute_registerAccepted, ?addRoute_registerRejected.

Section Handshake.
Context {codec : Codec} (w : World).

(** *** A parked delivery goroutine *)

Lemma blocked_step_cert (s : state) (ev : sched_event) (m : send) :
  at_pc s <> PSelectCreate -> blocked s = Some m -> cert_send m = true ->
  blocked (step w s ev) = Some m.
Proof.
  destruct s as [q clk ro bl c1 c2 c3 c4 a b tr]. cbn [at_pc blocked].
  intros Hp -> Hm.
  destruct m; try discriminate Hm.
  all: destruct q; try congruence.
  all: destruct ev; unfold step, main_step, deliver, chan_send, tick, createMQTTClient,
         recv_registerResponse, recv_registerError;
       cbn [at_pc blocked routes]; case_matches; reflexivity.
Qed.

Lemma deliver_parked (s : state) (t : string) (p : bytes) (m : send) :
  blocked s = Some m -> step w s (EvDeliver t p) = s.
Proof.
  intros E. simpl. unfold deliver. rewrite E. destruct (at_pc s); reflexivity.
Qed.

Lemma parked_register_step (s : state) (ev : sched_event) (m : send) :
  blocked s = Some m ->
  registerResponseChan s = None -> registerErrorChan s = None ->
  stepB s = None \/ stepB s = Some TimedOut ->
  registerResponseChan (step w s ev) = None /\
  registerErrorChan (step w s ev) = None /\
  (stepB (step w s ev) = None \/ stepB (step w s ev) = Some TimedOut).
Proof.
  intros E H1 H2 H3. destruct ev as [coin|t p|d].
  - destruct s as [q clk ro bl c1 c2 c3 c4 a b tr]. simpl in *. subst.
    destruct q; unfold main_step, createMQTTClient, recv_certResponse, recv_certError;
      cbn [at_pc]; case_matches; try discriminate; auto.
  - rewrite (deliver_parked s t p m E). auto.
  - destruct s as [q clk ro bl c1 c2 c3 c4 a b tr]. simpl in *. subst.
    destruct q; unfold tick; cbn [at_pc]; case_matches; try discriminate; auto.
Qed.

Lemma parked_exec (more : list sched_event) (s : state) (m : send)
    (o : ExchangeOutcome CreateCertificateResponse) :
  Inv w s -> stepA s = Some o -> blocked s = Some m -> cert_send m = true ->
  blocked (exec w more s) = Some m /\
  (registerResponseChan s = None -> registerErrorChan s = None ->
   stepB s = None \/ stepB s = Some TimedOut ->
   stepB (exec w more s) = None \/ stepB (exec w more s) = Some TimedOut).
Proof.
  revert s. induction more as [|ev more IH]; intros s Hi HA Hb Hm; [auto|].
  change (exec w (ev :: more) s) with (exec w more (step w s ev)).
  destruct (stepA_resolved_pc w s o Hi HA) as [Hp _].
  pose proof (blocked_step_cert s ev m Hp Hb Hm) as Hb'.
  destruct (IH (step w s ev) (Inv_step w s ev Hi)
              (stepA_stable w [ev] s o Hi HA) Hb' Hm) as [IH1 IH2].
  split; [exact IH1|]. intros H1 H2 H3.
  destruct (parked_register_step s ev m Hb H1 H2 H3) as (H1' & H2' & H3').
  auto.
Qed.

Lemma deliver_accept_step (s : state) (p : bytes) (r : CreateCertificateResponse) :
  (forall c, at_pc s <> PExited c) -> blocked s = None -> routes s = routes_create ->
  json_Unmarshal_CreateCertificateResponse p = Ok r ->
  deliver topicCreateAccepted p s = chan_send (SendCertResponse r) s.
Proof.
  intros Hx Hb Hr Hp. unfold deliver.
  rewrite Hb, Hr, matchRoute_createAccepted. unfold run_handler. rewrite Hp.
  destruct (at_pc s) eqn:E; try reflexivity.
  destruct (Hx code). reflexivity.
Qed.

Lemma three_accepts (s : state) (dl : N) (p1 p2 p3 : bytes)
    (r1 r2 r3 : CreateCertificateResponse) :
  Inv w s -> at_pc s = PBlockedCreate dl ->
  json_Unmarshal_CreateCertificateResponse p1 = Ok r1 ->
  json_Unmarshal_CreateCertificateResponse p2 = Ok r2 ->
  json_Unmarshal_CreateCertificateResponse p3 = Ok r3 ->
  let s3 := exec w [EvDeliver topicCreateAccepted p1; EvDeliver topicCreateAccepted p2;
                    EvDeliver topicCreateAccepted p3] s in
  stepA s3 = Some (Success r1) /\ certResponseChan s3 = Some r2 /\
  blocked s3 = Some (SendCertResponse r3) /\
  registerResponseChan s3 = None /\ registerErrorChan s3 = None /\ stepB s3 = None.
Proof.
  intros Hi E H1 H2 H3.
  destruct (blocked_create_state w s dl Hi E) as (Hro & Hbl & Hc1 & Hc2 & HA).
  assert (HB : registerResponseChan s = None /\ registerErrorChan s = None /\
               stepB s = None).
  { destruct Hi as [H|(s0 & coin & _ & -> & Hx)].
    - destruct H as (_ & _ & _ & _ & HB & _ & _ & Hbr & _).
      rewrite E in *. destruct (Hbr eq_refl). auto.
    - unfold exited in Hx. rewrite E in Hx. contradiction. }
  destruct HB as (H5 & H6 & H7).
  assert (E1 : step w s (EvDeliver topicCreateAccepted p1) = resolveA (Success r1) s).
  { change (deliver topicCreateAccepted p1 s = resolveA (Success r1) s).
    rewrite (deliver_accept_step s p1 r1); auto;
      try (intros c; rewrite E; discriminate).
    unfold chan_send. rewrite E. reflexivity. }
  assert (E2 : step w (resolveA (Success r1) s) (EvDeliver topicCreateAccepted p2) =
               set_certResponseChan (Some r2) (resolveA (Success r1) s)).
  { change (deliver topicCreateAccepted p2 (resolveA (Success r1) s) =
            set_certResponseChan (Some r2) (resolveA (Success r1) s)).
    rewrite (deliver_accept_step _ p2 r2); auto;
      try (intros c; cbn [resolveA at_pc]; discriminate).
    unfold chan_send. cbn [resolveA at_pc certResponseChan]. rewrite Hc1. reflexivity. }
  assert (E3 : step w (set_certResponseChan (Some r2) (resolveA (Success r1) s))
                 (EvDeliver topicCreateAccepted p3) =
               set_blocked (Some (SendCertResponse r3))
                 (set_certResponseChan (Some r2) (resolveA (Success r1) s))).
  { change (deliver topicCreateAccepted p3
              (set_certResponseChan (Some r2) (resolveA (Success r1) s)) =
            set_blocked (Some (SendCertResponse r3))
              (set_certResponseChan (Some r2) (resolveA (Success r1) s))).
    rewrite (deliver_accept_step _ p3 r3); auto;
      try (intros c; cbn [set_certResponseChan resolveA at_pc]; discriminate). }
  intros s3. subst s3. unfold exec.
  cbn [foldl]. rewrite E1, E2, E3.
  cbn [set_blocked set_certResponseChan resolveA stepA stepB certResponseChan blocked
       registerResponseChan registerErrorChan].
  auto 6.
Qed.

(** X10 -- duplicate responses park the delivery goroutine.  The channels
    have capacity one and [main] reads each at most once.  While [main]
    waits in the first [select], a first accepted message resolves it, a
    second is buffered, and the callback of a third parks in its send.  Once
    a callback is parked on a channel of Step A after the first [select] has
    taken its case, it stays parked for the rest of the run: every later
    delivery, on any topic, leaves the state as it is, so a registration
    that had not been answered yet can only time out. *)
Theorem parked_delivery_goroutine (sched more : list sched_event) :
  let s := run w sched in
  (forall dl p1 p2 p3 r1 r2 r3, at_pc s = PBlockedCreate dl ->
     json_Unmarshal_CreateCertificateResponse p1 = Ok r1 ->
     json_Unmarshal_CreateCertificateResponse p2 = Ok r2 ->
     json_Unmarshal_CreateCertificateResponse p3 = Ok r3 ->
     let s3 := run w (sched ++ [EvDeliver topicCreateAccepted p1;
                                EvDeliver topicCreateAccepted p2;
                                EvDeliver topicCreateAccepted p3]) in
     stepA s3 = Some (Success r1) /\ certResponseChan s3 = Some r2 /\
     blocked s3 = Some (SendCertResponse r3)) /\
  (forall m o, blocked s = Some m -> cert_send m = true -> stepA s = Some o ->
     let s' := run w (sched ++ more) in
     blocked s' = Some m /\
     (forall t p, step w s' (EvDeliver t p) = s') /\
     (registerResponseChan s = None -> registerErrorChan s = None -> stepB s = None ->
      stepB s' = None \/ stepB s' = Some TimedOut)).
Proof.
  intros s. pose proof (Inv_run w sched) as Hi. fold s in Hi. split.
  - intros dl p1 p2 p3 r1 r2 r3 E H1 H2 H3 s3. unfold s3. rewrite run_app.
    destruct (three_accepts s dl p1 p2 p3 r1 r2 r3 Hi E H1 H2 H3) as (A & B & C & _).
    auto.
  - intros m o Hb Hm HA s'. unfold s'. rewrite run_app.
    destruct (parked_exec more s m o Hi HA Hb Hm) as [P1 P2].
    split; [exact P1|]. split; [intros t p; eapply deliver_parked, P1|].
    intros H1 H2 H3. apply P2; auto.
Qed.


(** *** The whole handshake *)

Lemma success_trace (s : state) :
  Inv w s -> at_pc s = PExited 0 ->
  exists r r', stepA s = Some (Success r) /\ stepB s = Some (Success r') /\
    publishedRegister_ok w r /\ trace s = tr_done r r'.
Proof.
  intros H. inv_cases H; intros E; try discriminate.
  eexists _, _. split; [reflexivity|]. split; [reflexivity|].
  split; [exact Hw|]. reflexivity.
Qed.

Lemma Inv_live (s : state) : Inv w s -> ~ exited s -> live_shape w s.
Proof. intros [H|(s0 & coin & _ & _ & Hx)] Hn; [exact H | contradiction]. Qed.

Lemma deliver_registered_step (s : state) (p : bytes) (r : RegisterThingResponse) :
  (forall c, at_pc s <> PExited c) -> blocked s = None -> routes s = routes_register ->
  json_Unmarshal_RegisterThingResponse p = Ok r ->
  deliver topicRegisterAccepted p s = chan_send (SendRegisterResponse r) s.
Proof.
  intros Hx Hb Hr Hp. unfold deliver.
  rewrite Hb, Hr, matchRoute_registerAccepted. unfold run_handler. rewrite Hp.
  destruct (at_pc s) eqn:E; try reflexivity.
  destruct (Hx code). reflexivity.
Qed.

(** [main] from its first statement to the first [select]. *)
Lemma phase_request (bA : bytes) :
  LoadX509KeyPair_error w = None -> ReadFile_error w = None ->
  Connect_error w = None ->
  json_Marshal createCertPayload = Ok bA ->
  Publish_error w topicCreateCertificate = None ->
  exists s, run w (mains 6) = s /\
    at_pc s = PBlockedCreate waitBudget /\ clock s = 0.
Proof.
  intros H1 H2 H3 H4 H5. eexists. split.
  - unfold run, init. cbn [mains replicate].
    do 6 advance ltac:(rewrite ?H1, ?H2, ?H3, ?H4, ?H5).
    unfold exec. cbn [foldl]. reflexivity.
  - state_simpl. split; reflexivity.
Qed.

(** The issuance is answered while [main] waits. *)
Lemma phase_issued (s : state) (dl d : N) (p : bytes) (r : CreateCertificateResponse) :
  Inv w s -> at_pc s = PBlockedCreate dl -> clock s + d < dl ->
  json_Unmarshal_CreateCertificateResponse p = Ok r ->
  let s' := exec w [EvTick d; EvDeliver topicCreateAccepted p] s in
  at_pc s' = PCertResponse r /\ clock s' = clock s + d /\ blocked s' = None /\
  stepA s' = Some (Success r).
Proof.
  intros Hi E Hd Hp.
  destruct (blocked_create_state w s dl Hi E) as (Hro & Hbl & _).
  assert (E1 : step w s (EvTick d) = set_clock (clock s + d) s).
  { change (tick d s = set_clock (clock s + d) s). unfold tick. rewrite E.
    cbn [set_clock clock]. 
    replace (dl <=? clock s + d) with false by (symmetry; apply N.leb_gt; lia).
    reflexivity. }
  assert (E2 : step w (set_clock (clock s + d) s) (EvDeliver topicCreateAccepted p) =
               resolveA (Success r) (set_clock (clock s + d) s)).
  { change (deliver topicCreateAccepted p (set_clock (clock s + d) s) =
            resolveA (Success r) (set_clock (clock s + d) s)).
    rewrite (deliver_accept_step _ p r); auto;
      try (intros c; cbn [set_clock at_pc]; rewrite E; discriminate).
    unfold chan_send. cbn [set_clock at_pc]. rewrite E. reflexivity. }
  intros s'. subst s'. rewrite !exec_cons, E1, E2. unfold exec. cbn [foldl].
  state_simpl. auto.
Qed.

(** [main] from the accepted issuance to the second [select]. *)
Lemma phase_register (s : state) (r : CreateCertificateResponse) (bB : bytes) :
  Inv w s -> at_pc s = PCertResponse r -> blocked s = None ->
  WriteFile_error w permanentCertFile = None ->
  WriteFile_error w permanentKeyFile = None ->
  json_Marshal (registerThingPayload r) = Ok bB ->
  Publish_error w topicRegisterThing = None ->
  exists s', exec w (mains 7) s = s' /\
    at_pc s' = PBlockedRegister (clock s + waitBudget) r /\ clock s' = clock s /\
    blocked s' = None.
Proof.
  intros Hi E Hb H7 H8 H9 H10.
  assert (Hl : live_shape w s).
  { apply Inv_live; [exact Hi|]. unfold exited. rewrite E. auto. }
  destruct Hl as (_ & _ & _ & _ & _ & _ & _ & Hbr & _).
  rewrite E in Hbr. destruct (Hbr eq_refl) as [Hc3 Hc4].
  eexists. split.
  - cbn [mains replicate].
    do 7 advance ltac:(rewrite ?E, ?H7, ?H8, ?H9, ?H10, ?Hc3, ?Hc4).
    unfold exec. cbn [foldl]. reflexivity.
  - state_simpl. auto.
Qed.

(** The registration is answered while [main] waits, and [main] finishes. *)
Lemma phase_registered (s : state) (dl d : N) (c : CreateCertificateResponse)
    (p : bytes) (r : RegisterThingResponse) (coin : bool) :
  Inv w s -> at_pc s = PBlockedRegister dl c -> blocked s = None ->
  clock s + d < dl ->
  json_Unmarshal_RegisterThingResponse p = Ok r ->
  let s' := exec w [EvTick d; EvDeliver topicRegisterAccepted p; EvMain coin] s in
  at_pc s' = PExited 0 /\ stepB s' = Some (Success r).
Proof.
  intros Hi E Hbl Hd Hp.
  destruct (blocked_register_state w s dl c Hi E) as (Hro & _).
  assert (E1 : step w s (EvTick d) = set_clock (clock s + d) s).
  { change (tick d s = set_clock (clock s + d) s). unfold tick. rewrite E.
    cbn [set_clock clock].
    replace (dl <=? clock s + d) with false by (symmetry; apply N.leb_gt; lia).
    reflexivity. }
  assert (E2 : step w (set_clock (clock s + d) s) (EvDeliver topicRegisterAccepted p) =
               resolveB c (Success r) (set_clock (clock s + d) s)).
  { change (deliver topicRegisterAccepted p (set_clock (clock s + d) s) =
            resolveB c (Success r) (set_clock (clock s + d) s)).
    rewrite (deliver_registered_step _ p r); auto;
      try (intros c'; cbn [set_clock at_pc]; rewrite E; discriminate).
    unfold chan_send. cbn [set_clock at_pc]. rewrite E. reflexivity. }
  intros s'. subst s'. rewrite !exec_cons, E1, E2.
  unfold step, main_step. state_simpl. unfold exec. cbn [foldl].
  state_simpl. auto.
Qed.

(** X11 -- an answered handshake completes.  When the client can be created,
    both requests can be encoded and published, both files can be written,
    and each request is answered on its accepted topic with a payload that
    decodes, less than ten seconds after [main] has entered the [select],
    the program exits with code 0: both exchanges resolved with the decoded
    responses, and the calls it made are exactly those of the listing, in
    its order, ending with the deferred [Disconnect(250)]. *)
Theorem answered_handshake_completes (pA pB bA bB : bytes)
    (r : CreateCertificateResponse) (r' : RegisterThingResponse) (d1 d2 : N) :
  LoadX509KeyPair_error w = None -> ReadFile_error w = None ->
  Connect_error w = None ->
  json_Marshal createCertPayload = Ok bA ->
  Publish_error w topicCreateCertificate = None ->
  json_Unmarshal_CreateCertificateResponse pA = Ok r ->
  WriteFile_error w permanentCertFile = None ->
  WriteFile_error w permanentKeyFile = None ->
  json_Marshal (registerThingPayload r) = Ok bB ->
  Publish_error w topicRegisterThing = None ->
  json_Unmarshal_RegisterThingResponse pB = Ok r' ->
  d1 < waitBudget -> d2 < waitBudget ->
  let s := run w (answered_schedule d1 pA d2 pB) in
  at_pc s = PExited 0 /\ stepA s = Some (Success r) /\ stepB s = Some (Success r') /\
  trace s = tr_done r r'.
Proof.
  intros H1 H2 H3 H4 H5 H6 H7 H8 H9 H10 H11 Hd1 Hd2 s.
  assert (Hpc : at_pc s = PExited 0 /\ stepB s = Some (Success r')).
  { subst s. unfold answered_schedule. rewrite run_app, exec_app, exec_app.
    change ([EvTick d2; EvDeliver topicRegisterAccepted pB] ++ mains 1)
      with [EvTick d2; EvDeliver topicRegisterAccepted pB; EvMain false].
    destruct (phase_request bA H1 H2 H3 H4 H5) as (s1' & Es & P1 & C1).
    rewrite <- Es in P1, C1. clear s1' Es.
    pose proof (Inv_run w (mains 6)) as I1.
    set (s1 := run w (mains 6)) in *.
    destruct (phase_issued s1 waitBudget d1 pA r I1 P1) as (P2 & C2 & B2 & _); auto.
    { rewrite C1. lia. }
    set (s2 := exec w [EvTick d1; EvDeliver topicCreateAccepted pA] s1) in *.
    assert (I2 : Inv w s2) by (apply Inv_exec, I1).
    destruct (phase_register s2 r bB I2 P2 B2 H7 H8 H9 H10) as (s3 & Es & P3 & C3 & B3).
    rewrite Es.
    assert (I3 : Inv w s3) by (rewrite <- Es; apply Inv_exec, I2).
    apply (phase_registered s3 (clock s2 + waitBudget) d2 r pB r' false I3 P3 B3); auto.
    rewrite C3. lia. }
  destruct Hpc as [Hpc HB].
  destruct (success_trace s (Inv_run w _) Hpc) as (r0 & r0' & HA' & HB' & _ & Htr).
  rewrite HB in HB'. simplify_eq.
  assert (HA : stepA s = Some (Success r)).
  { subst s. unfold answered_schedule. rewrite app_assoc, run_app.
    apply stepA_stable; [apply Inv_run|].
    rewrite run_app.
    destruct (phase_request bA H1 H2 H3 H4 H5) as (s1 & Es & P1 & C1).
    rewrite <- Es in P1, C1.
    pose proof (Inv_run w (mains 6)) as I1.
    apply (phase_issued _ waitBudget d1 pA r I1 P1); auto.
    rewrite C1. lia. }
  rewrite HA in HA'. simplify_eq. auto.
Qed.

End Handshake.


(** ** The further properties on the sample environment *)

Lemma client_creation_failure_witness :
  aborted_with
    ("Failed to create MQTT client: " +:+
     "failed to connect: network Error : dial tcp: i/o timeout")
    (run (codec := sample_codec) offline_world ([] ++ [EvMain false])).
Proof.
  apply (proj1 (client_creation_failure (codec := sample_codec) offline_world [])
           [LoadX509KeyPair certificateFile privateKeyFile; ReadFile rootCAFile;
            Connect ("ssl://" +:+ AWSIoTEndpoint +:+ ":8883") ("device-" +:+ serialNumber)]
           "failed to connect: network Error : dial tcp: i/o timeout" false).
  vm_compute. reflexivity.
Defined.

Lemma connect_before_traffic_witness :
  Connect ("ssl://" +:+ AWSIoTEndpoint +:+ ":8883") ("device-" +:+ serialNumber) ∈
  tr_connected ++ [Log "Subscribing to certificate creation response topics..."].
Proof.
  apply (proj1 (connect_before_traffic (codec := sample_codec) calm_world (mains 2)
                  (tr_connected ++
                   [Log "Subscribing to certificate creation response topics..."])
                  [] (Subscribe topicCreateAccepted 1) eq_refl)).
  reflexivity.
Defined.

Lemma exit_discipline_witness :
  (exists tr, trace (run (codec := sample_codec) calm_world complete_schedule) =
     tr ++ [Log "Device provisioning test complete"; Disconnect 250]) /\
  (exists msg tr, trace (run (codec := sample_codec) offline_world (mains 1)) =
     tr ++ [Log msg; Exit 1]).
Proof.
  split.
  - apply (proj1 (proj2 (proj2 (exit_discipline (codec := sample_codec) calm_world
                                  complete_schedule)))).
    vm_compute. reflexivity.
  - apply (proj1 (proj2 (exit_discipline (codec := sample_codec) offline_world
                           (mains 1)))).
    vm_compute. reflexivity.
Defined.

Lemma success_means_registered_witness :
  exists r r' p p',
    stepA (run (codec := sample_codec) calm_world complete_schedule) =
      Some (Success r) /\
    stepB (run (codec := sample_codec) calm_world complete_schedule) =
      Some (Success r') /\
    EvDeliver topicCreateAccepted p ∈ complete_schedule /\
    EvDeliver topicRegisterAccepted p' ∈ complete_schedule.
Proof.
  destruct (success_means_registered (codec := sample_codec) calm_world
              complete_schedule) as (r & r' & p & p' & HA & HB & Hp & _ & Hp' & _).
  - vm_compute. reflexivity.
  - exists r, r', p, p'. auto.
Defined.

Lemma registration_failure_keeps_credentials_witness :
  aborted_with
    ("Thing registration failed: " +:+ "thing registration rejected: quota exceeded")
    (step (codec := sample_codec) calm_world
       (run (codec := sample_codec) calm_world rejected_registration_schedule)
       (EvMain false)) /\
  writes (trace (run (codec := sample_codec) calm_world
                   (rejected_registration_schedule ++ mains 3))) =
  credential_writes sample_certResponse.
Proof.
  pose proof (registration_failure_keeps_credentials (codec := sample_codec)
                calm_world rejected_registration_schedule (mains 3) false)
    as (H1 & _ & H3).
  split.
  - apply H1. vm_compute. reflexivity.
  - destruct (H3 (Failure "thing registration rejected: quota exceeded"))
      as (r & HA & _ & Hw).
    + vm_compute. reflexivity.
    + rewrite Hw. f_equal.
      assert (Some (Success r) = Some (Success sample_certResponse)) as E
        by (rewrite <- HA; vm_compute; reflexivity).
      congruence.
Defined.

Lemma failure_reasons_attributable_witness :
  (exists p, EvDeliver topicCreateRejected p ∈
       mains 6 ++ [EvDeliver topicCreateRejected sample_rejection] /\
     "certificate creation rejected: quota exceeded" =
       "certificate creation rejected: " +:+ string_of_list_byte p) \/
  (exists p d, EvDeliver topicCreateAccepted p ∈
       mains 6 ++ [EvDeliver topicCreateRejected sample_rejection] /\
     json_Unmarshal_CreateCertificateResponse (Codec := sample_codec) p = Err d /\
     "certificate creation rejected: quota exceeded" =
       "failed to unmarshal certificate response: " +:+ d).
Proof.
  apply (proj1 (failure_reasons_attributable (codec := sample_codec) calm_world
                  (mains 6 ++ [EvDeliver topicCreateRejected sample_rejection]))).
  vm_compute. reflexivity.
Defined.

Lemma unacknowledged_publish_aborts_witness :
  aborted_with
    ("Failed to publish create certificate request: " +:+ "publish was broken by timeout")
    (step (codec := sample_codec) unacked_world
       (run (codec := sample_codec) unacked_world (mains 4)) (EvMain false)).
Proof.
  destruct (proj1 (unacknowledged_publish_aborts (codec := sample_codec) unacked_world
                     (mains 4) "publish was broken by timeout" false) eq_refl)
    as (_ & _ & _ & H).
  apply H. vm_compute. reflexivity.
Defined.

Lemma unsubscribed_delivery_dropped_witness :
  step (codec := sample_codec) calm_world
    (run (codec := sample_codec) calm_world (mains 1))
    (EvDeliver topicCreateAccepted sample_issuance) =
  run (codec := sample_codec) calm_world (mains 1).
Proof.
  apply unsubscribed_delivery_dropped.
  intros q Hq. apply list_elem_of_In in Hq. vm_compute in Hq.
  intuition discriminate.
Defined.

Lemma parked_delivery_goroutine_witness :
  let s3 := run (codec := sample_codec) calm_world
              (mains 6 ++ [EvDeliver topicCreateAccepted sample_issuance;
                           EvDeliver topicCreateAccepted sample_issuance_reordered;
                           EvDeliver topicCreateAccepted sample_issuance]) in
  stepA s3 = Some (Success sample_certResponse) /\
  certResponseChan s3 = Some sample_certResponse /\
  blocked s3 = Some (SendCertResponse sample_certResponse).
Proof.
  apply (proj1 (parked_delivery_goroutine (codec := sample_codec) calm_world
                  (mains 6) []) (0 + waitBudget)).
  - vm_compute. reflexivity.
  - vm_compute. reflexivity.
  - vm_compute. reflexivity.
  - vm_compute. reflexivity.
Defined.

Lemma answered_handshake_completes_witness :
  let s := run (codec := sample_codec) calm_world complete_schedule in
  at_pc s = PExited 0 /\ stepA s = Some (Success sample_certResponse) /\
  stepB s = Some (Success sample_registerResponse) /\
  trace s = tr_done (codec := sample_codec) sample_certResponse sample_registerResponse.
Proof.
  apply (answered_handshake_completes (codec := sample_codec) calm_world
           sample_issuance sample_registration
           (marshalled (codec := sample_codec) createCertPayload)
           (marshalled (codec := sample_codec) (registerThingPayload sample_certResponse))
           sample_certResponse sample_registerResponse time_Second time_Second);
    vm_compute; reflexivity.
Defined.

Lemma responses_attributed_by_topic_witness :
  (topicCreateAccepted = topicCreateAccepted \/
   topicCreateAccepted = topicCreateRejected) /\
  trace (step (codec := sample_codec) calm_world
           (run (codec := sample_codec) calm_world (mains 6))
           (EvDeliver topicCreateAccepted sample_issuance)) =
  trace (run (codec := sample_codec) calm_world (mains 6)).
Proof.
  pose proof (responses_attributed_by_topic (codec := sample_codec) calm_world
                (mains 6) topicCreateAccepted sample_issuance) as (H1 & _ & H3).
  split; [apply H1 | exact H3].
  vm_compute. discriminate.
Defined.
